(** * jac-gpt/server/database.py: the MongoDB session store

    A shallow embedding of the [MongoDB] helper class and of the two
    module-level functions [get_database] / [close_database], together
    with the part of the pymongo driver the class calls
    ([find_one], [insert_one], [update_one] with [$set],
    [find(...).sort(...).limit(...)], [count_documents]).

    Documents are Python dicts, modelled as [gmap string value]; a
    collection is the list of its documents in insertion order; methods
    run in a small state-and-exception monad over the contents of the
    two collections.

    Modelling choices for what lies outside the source file:
    - a driver call is one round trip that either raises, leaving both
      collections as they were, or takes effect; which round trips raise
      is given by the environment of the run;
    - [datetime.utcnow()] returns the next reading of the environment's
      clock, in microseconds; nothing is assumed about the readings; the
      store keeps dates to the millisecond, so a record read back differs
      from the dict that was written in the microseconds of its dates;
    - a generated ObjectId is fresh for the collection it goes into;
    - [sort] uses the BSON comparison order; the order of documents with
      equal keys is left open by the server, and no statement relies on
      the one the sort function here gives;
    - the methods are modelled without their [print] calls, that is for
      ids, roles and contents that standard output can encode; module
      [Stdout] adds the calls back to the three methods whose handlers
      print;
    - printing and logging are left out. *)

From stdpp Require Import gmap strings list fin_maps sorting.
From Stdlib Require Import ZArith.

Local Open Scope Z_scope.

(** ** Values and documents *)

(** A point in time, in microseconds since the epoch: the resolution of a
    Python [datetime]. *)
Definition time := Z.

(** What the store keeps of a [datetime]: BSON dates count whole
    milliseconds, the microseconds below are dropped on the way in. *)
Definition to_millis (t : time) : time := t / 1000 * 1000.

(** The BSON values that occur in the two collections. *)
Inductive value :=
  | VStr (s : string)
  | VInt (n : Z)
  | VOid (n : N)
  | VTime (t : time).

Global Instance value_eq_dec : EqDecision value.
Proof. solve_decision. Defined.

Abbreviation doc := (gmap string value).

(** A document as the driver encodes it for the server. *)
Definition bson_value (v : value) : value :=
  match v with
  | VTime t => VTime (to_millis t)
  | _ => v
  end.

Definition bson_doc (d : doc) : doc := bson_value <$> d.

(** Python exceptions that can occur inside the methods. *)
Inductive exn :=
  | PyMongoError
  | DuplicateKeyError
  | KeyError (k : string)
  | UnicodeEncodeError.

Inductive outcome (A : Type) :=
  | Returns (a : A)
  | Raises (e : exn).
Arguments Returns {A} a.
Arguments Raises {A} e.

(** Truth value of [x] in [if x:] for [x] a dict or [None]. *)
Definition truthy (x : option doc) : bool :=
  match x with
  | Some d => bool_decide (d ≠ ∅)
  | None => false
  end.

(** ** Collections (driver side, pure part) *)

(** An equality filter such as [{"_id": sid}] selects the documents that
    carry every key of the filter with the same value. *)
Definition matches (q d : doc) : bool := bool_decide (q ⊆ d).

Definition coll_find (q : doc) (c : list doc) : list doc :=
  List.filter (matches q) c.

Definition coll_find_one (q : doc) (c : list doc) : option doc :=
  head (coll_find q c).

Definition coll_count (q : doc) (c : list doc) : Z :=
  Z.of_nat (length (coll_find q c)).

Record UpdateResult := mkUpdateResult {
  matched_count : Z;
  modified_count : Z
}.

(** [update_one(q, {"$set": upd})]: the first matching document, if any,
    receives the fields of [upd]; nothing else changes. *)
Fixpoint coll_update_one (q upd : doc) (c : list doc) : list doc * UpdateResult :=
  match c with
  | [] => ([], mkUpdateResult 0 0)
  | d :: c' =>
      if matches q d
      then ((upd ∪ d) :: c',
            mkUpdateResult 1 (if bool_decide (upd ∪ d = d) then 0 else 1))
      else let '(c'', r) := coll_update_one q upd c' in (d :: c'', r)
  end.

Definition oid_of (d : doc) : N :=
  match d !! "_id" with
  | Some (VOid n) => n
  | _ => 0%N
  end.

(** A generated ObjectId is distinct from every id in the collection. *)
Definition fresh_oid (c : list doc) : N :=
  N.succ (foldr (λ d m, N.max (oid_of d) m) 0%N c).

(** [insert_one(d)]: a document without [_id] receives a generated one;
    an [_id] already in the collection is refused; the document is
    appended.  The result is the inserted id and the new collection. *)
Definition coll_insert_one (d : doc) (c : list doc) : outcome (value * list doc) :=
  let i := match d !! "_id" with
           | Some i => i
           | None => VOid (fresh_oid c)
           end in
  match coll_find_one {[ "_id" := i ]} c with
  | Some _ => Raises DuplicateKeyError
  | None => Returns (i, c ++ [<["_id" := i]> d])
  end.

(** *** Sorting on a field (BSON comparison order) *)

Fixpoint str_leb (a b : string) : bool :=
  match a, b with
  | EmptyString, _ => true
  | String _ _, EmptyString => false
  | String x a', String y b' =>
      if (Ascii.N_of_ascii x <? Ascii.N_of_ascii y)%N then true
      else if (Ascii.N_of_ascii x =? Ascii.N_of_ascii y)%N then str_leb a' b'
      else false
  end.

(** Missing field (null) < numbers < strings < ObjectId < dates. *)
Definition bson_rank (v : option value) : Z :=
  match v with
  | None => 0
  | Some (VInt _) => 1
  | Some (VStr _) => 2
  | Some (VOid _) => 3
  | Some (VTime _) => 4
  end.

Definition bson_leb (a b : option value) : bool :=
  match a, b with
  | Some (VInt x), Some (VInt y) => x <=? y
  | Some (VStr x), Some (VStr y) => str_leb x y
  | Some (VOid x), Some (VOid y) => (x <=? y)%N
  | Some (VTime x), Some (VTime y) => x <=? y
  | _, _ => bson_rank a <=? bson_rank b
  end.

(** [field_le k d1 d2]: [d1] sorts no later than [d2] in [sort(k, 1)]. *)
Definition field_le (k : string) (d1 d2 : doc) : Prop :=
  bson_leb (d1 !! k) (d2 !! k) = true.

Global Instance field_le_dec k : RelDecision (field_le k).
Proof. intros d1 d2. unfold field_le. apply _. Defined.

(** Ascending sort on field [k].  For documents with equal keys the
    server promises no order; here they keep the order in which they
    were found, the statements below do not depend on it. *)
Fixpoint sort_insert (k : string) (d : doc) (l : list doc) : list doc :=
  match l with
  | [] => [d]
  | x :: l' =>
      if bson_leb (d !! k) (x !! k) then d :: x :: l'
      else x :: sort_insert k d l'
  end.

Definition coll_sort (k : string) (c : list doc) : list doc :=
  foldr (sort_insert k) [] c.

(** [cursor.limit(n)]: [0] means no limit.  A negative [n] asks for one
    batch of at most [abs n] documents; the bound of a batch is not
    modelled, nor that the driver refuses a limit beyond 64 bits, so the
    statements about limits below are for [0 ≤ n] and count a refused
    limit among the failing round trips. *)
Definition coll_limit (limit : Z) (c : list doc) : list doc :=
  if limit =? 0 then c else take (Z.to_nat (Z.abs limit)) c.

(** ** The store and the method monad *)

(** What a method can observe and change: the two collections, the
    number of clock readings taken and the number of driver round trips
    issued so far. *)
Record World := mkWorld {
  sessions : list doc;
  messages : list doc;
  ticks : nat;
  calls : nat
}.

Inductive coll_name := Sessions | Messages.

Definition get_coll (c : coll_name) (w : World) : list doc :=
  match c with
  | Sessions => sessions w
  | Messages => messages w
  end.

Definition set_coll (c : coll_name) (l : list doc) (w : World) : World :=
  match c with
  | Sessions => mkWorld l (messages w) (ticks w) (calls w)
  | Messages => mkWorld (sessions w) l (ticks w) (calls w)
  end.

Definition M (A : Type) : Type := World → outcome A * World.

Definition ret {A} (a : A) : M A := λ w, (Returns a, w).

Definition raise {A} (e : exn) : M A := λ w, (Raises e, w).

Definition bind {A B} (m : M A) (k : A → M B) : M B :=
  λ w, match m w with
       | (Returns a, w') => k a w'
       | (Raises e, w') => (Raises e, w')
       end.

(** [try: body  except Exception as e: handler]. *)
Definition try_except {A} (body : M A) (handler : exn → M A) : M A :=
  λ w, match body w with
       | (Returns a, w') => (Returns a, w')
       | (Raises e, w') => handler e w'
       end.

Notation "'let*' x := m 'in' k" := (bind m (λ x, k))
  (at level 10, x name, m at level 100, k at level 200).
Notation "m ;; k" := (bind m (λ _, k))
  (at level 100, k at level 200, right associativity).

(** [d[k]] on a dict. *)
Definition getitem {A} (d : gmap string A) (k : string) : M A :=
  match d !! k with
  | Some v => ret v
  | None => raise (KeyError k)
  end.

(** The body of a [for x in l:] loop that appends [f x] to a list. *)
Fixpoint for_append {A B} (f : A → M B) (l : list A) : M (list B) :=
  match l with
  | [] => ret []
  | x :: l' => let* y := f x in let* ys := for_append f l' in ret (y :: ys)
  end.

(** The environment of a run: the successive readings of the clock, and
    which driver round trips fail (network error, server error, a value
    the driver cannot encode). *)
Record Env := mkEnv {
  clock : nat → time;
  fault : nat → bool
}.

(** The [n]-th reading of the clock as the store keeps it. *)
Definition utcnow (env : Env) (n : nat) : time := to_millis (clock env n).

(** The dict appended for one message in [get_chat_history]'s loop. *)
Definition history_entry (msg : doc) : M doc :=
  let* role := getitem msg "role" in
  let* content := getitem msg "content" in
  ret ({[ "role" := role; "content" := content ]} : doc).

Section MongoDB.

Variable env : Env.

Definition datetime_utcnow : M time :=
  λ w, (Returns (clock env (ticks w)),
        mkWorld (sessions w) (messages w) (S (ticks w)) (calls w)).

(** One round trip to the server: it either fails, leaving the
    collections as they are, or performs [op]. *)
Definition round_trip {A} (op : M A) : M A :=
  λ w, let w' := mkWorld (sessions w) (messages w) (ticks w) (S (calls w)) in
       if fault env (calls w) then (Raises PyMongoError, w') else op w'.

Definition find_one (c : coll_name) (q : doc) : M (option doc) :=
  round_trip (λ w, (Returns (coll_find_one q (get_coll c w)), w)).

Definition insert_one (c : coll_name) (d : doc) : M value :=
  round_trip (λ w, match coll_insert_one (bson_doc d) (get_coll c w) with
                   | Returns (i, l) => (Returns i, set_coll c l w)
                   | Raises e => (Raises e, w)
                   end).

Definition update_one (c : coll_name) (q upd : doc) : M UpdateResult :=
  round_trip (λ w, let '(l, r) := coll_update_one q (bson_doc upd) (get_coll c w) in
                   (Returns r, set_coll c l w)).

Definition count_documents (c : coll_name) (q : doc) : M Z :=
  round_trip (λ w, (Returns (coll_count q (get_coll c w)), w)).

(** [list(coll.find(q).sort(k, 1).limit(n))]. *)
Definition find_sort_limit (c : coll_name) (q : doc) (k : string) (n : Z)
  : M (list doc) :=
  round_trip (λ w, (Returns (coll_limit n (coll_sort k (coll_find q (get_coll c w)))), w)).

(** *** The methods of class [MongoDB] *)

Definition create_session (session_id : string) : M (option doc) :=
  try_except
    (let* created := datetime_utcnow in
     let* updated := datetime_utcnow in
     let session_data : doc :=
       {[ "_id" := VStr session_id;
          "created_at" := VTime created;
          "updated_at" := VTime updated;
          "status" := VStr "active" ]} in
     let* existing := find_one Sessions {[ "_id" := VStr session_id ]} in
     if truthy existing then ret existing
     else
       insert_one Sessions session_data ;;
       ret (Some session_data))
    (λ _, ret None).

Definition get_session (session_id : string) : M (option doc) :=
  try_except
    (let* session := find_one Sessions {[ "_id" := VStr session_id ]} in
     ret session)
    (λ _, ret None).

Definition save_message (session_id role content : string) : M bool :=
  try_except
    (let* now := datetime_utcnow in
     let message_data : doc :=
       {[ "session_id" := VStr session_id;
          "role" := VStr role;
          "content" := VStr content;
          "timestamp" := VTime now ]} in
     insert_one Messages message_data ;;
     let* now' := datetime_utcnow in
     update_one Sessions {[ "_id" := VStr session_id ]}
                         {[ "updated_at" := VTime now' ]} ;;
     ret true)
    (λ _, ret false).

Definition get_chat_history (session_id : string) (limit : Z) : M (list doc) :=
  try_except
    (let* msgs := find_sort_limit Messages {[ "session_id" := VStr session_id ]}
                                  "timestamp" limit in
     let* chat_history := for_append history_entry msgs in
     ret chat_history)
    (λ _, ret []).

Definition get_session_stats (session_id : string) : M doc :=
  try_except
    (let* session := get_session session_id in
     if negb (truthy session) then ret ∅
     else
       let s : doc := default ∅ session in
       let* message_count :=
         count_documents Messages {[ "session_id" := VStr session_id ]} in
       let* user_messages :=
         count_documents Messages {[ "session_id" := VStr session_id;
                                     "role" := VStr "user" ]} in
       let* assistant_messages :=
         count_documents Messages {[ "session_id" := VStr session_id;
                                     "role" := VStr "assistant" ]} in
       let* created := getitem s "created_at" in
       let* updated := getitem s "updated_at" in
       ret ({[ "session_id" := VStr session_id;
               "total_messages" := VInt message_count;
               "user_messages" := VInt user_messages;
               "assistant_messages" := VInt assistant_messages;
               "created_at" := created;
               "updated_at" := updated ]} : doc))
    (λ _, ret ∅).

Definition close_session (session_id : string) : M unit :=
  try_except
    (let* now := datetime_utcnow in
     update_one Sessions {[ "_id" := VStr session_id ]}
                         {[ "status" := VStr "closed";
                            "updated_at" := VTime now ]} ;;
     ret tt)
    (λ _, ret tt).

End MongoDB.

(** ** Auxiliary definitions for the statements *)

(** The dict [create_session] builds before it looks the id up, and
    returns when the id is new. *)
Definition session_data (env : Env) (session_id : string) (w : World) : doc :=
  {[ "_id" := VStr session_id;
     "created_at" := VTime (clock env (ticks w));
     "updated_at" := VTime (clock env (S (ticks w)));
     "status" := VStr "active" ]}.

(** That record as the store keeps it. *)
Definition fresh_session (env : Env) (session_id : string) (w : World) : doc :=
  {[ "_id" := VStr session_id;
     "created_at" := VTime (utcnow env (ticks w));
     "updated_at" := VTime (utcnow env (S (ticks w)));
     "status" := VStr "active" ]}.

(** The record [save_message] inserts, as the store keeps it: with the id
    the driver gives it and its timestamp cut to the millisecond. *)
Definition new_message (env : Env) (session_id role content : string)
    (w : World) : doc :=
  <["_id" := VOid (fresh_oid (messages w))]>
    ({[ "session_id" := VStr session_id;
        "role" := VStr role;
        "content" := VStr content;
        "timestamp" := VTime (utcnow env (ticks w)) ]} : doc).

(** The fields [close_session] sets, as the store receives them. *)
Definition closing (env : Env) (w : World) : doc :=
  {[ "status" := VStr "closed";
     "updated_at" := VTime (utcnow env (ticks w)) ]}.

(** A message as [save_message] writes it carries a role and a content. *)
Definition msg_wf (m : doc) : Prop :=
  is_Some (m !! "role") ∧ is_Some (m !! "content").

(** A session record as [create_session] writes it carries both timestamps. *)
Definition session_wf (s : doc) : Prop :=
  is_Some (s !! "created_at") ∧ is_Some (s !! "updated_at").

(** [e] is message [m] cut down to its role and content. *)
Definition chat_entry (m e : doc) : Prop :=
  ∃ role content,
    m !! "role" = Some role ∧ m !! "content" = Some content
    ∧ e = {[ "role" := role; "content" := content ]}.

(** The stored messages [get_chat_history] reads, in the order it reads them. *)
Definition selected (session_id : string) (limit : Z) (w : World) : list doc :=
  coll_limit limit
    (coll_sort "timestamp"
       (coll_find {[ "session_id" := VStr session_id ]} (messages w))).

(** The world after [t] more clock readings and [c] more round trips
    that changed no collection. *)
Definition advance (t c : nat) (w : World) : World :=
  mkWorld (sessions w) (messages w) (t + ticks w) (c + calls w).

(** Some round trip issued between [w] and [w'] failed. *)
Definition faulted (env : Env) (w w' : World) : Prop :=
  ∃ n, (calls w ≤ n < calls w')%nat ∧ fault env n = true.

(** The messages of a session, and those of them with a given role. *)
Definition session_messages (session_id : string) (w : World) : list doc :=
  coll_find {[ "session_id" := VStr session_id ]} (messages w).

Definition has_role (r : string) (m : doc) : bool :=
  bool_decide (m !! "role" = Some (VStr r)).

Definition with_role (r : string) (l : list doc) : list doc :=
  List.filter (has_role r) l.

(** The mapping [get_session_stats] builds for session record [s]. *)
Definition stats_of (session_id : string) (w : World) (created updated : value)
  : doc :=
  {[ "session_id" := VStr session_id;
     "total_messages" := VInt (Z.of_nat (length (session_messages session_id w)));
     "user_messages" :=
       VInt (Z.of_nat (length (with_role "user" (session_messages session_id w))));
     "assistant_messages" :=
       VInt (Z.of_nat (length (with_role "assistant" (session_messages session_id w))));
     "created_at" := created;
     "updated_at" := updated ]}.

(** ** Sequences of method calls and the life cycle of a session *)

Inductive call :=
  | CreateSession (session_id : string)
  | GetSession (session_id : string)
  | SaveMessage (session_id role content : string)
  | GetChatHistory (session_id : string) (limit : Z)
  | GetSessionStats (session_id : string)
  | CloseSession (session_id : string).

(** The store after one call. *)
Definition exec (env : Env) (c : call) (w : World) : World :=
  match c with
  | CreateSession session_id => (create_session env session_id w).2
  | GetSession session_id => (get_session env session_id w).2
  | SaveMessage session_id role content =>
      (save_message env session_id role content w).2
  | GetChatHistory session_id limit => (get_chat_history env session_id limit w).2
  | GetSessionStats session_id => (get_session_stats env session_id w).2
  | CloseSession session_id => (close_session env session_id w).2
  end.

Definition exec_all (env : Env) (cs : list call) (w : World) : World :=
  foldl (λ w c, exec env c w) w cs.

Inductive phase := Nonexistent | Active | Closed | Malformed.

Definition status_phase (s : doc) : phase :=
  match s !! "status" with
  | Some (VStr st) =>
      if bool_decide (st = "active") then Active
      else if bool_decide (st = "closed") then Closed
      else Malformed
  | _ => Malformed
  end.

Definition phase_in (session_id : string) (l : list doc) : phase :=
  match coll_find_one {[ "_id" := VStr session_id ]} l with
  | None => Nonexistent
  | Some s => status_phase s
  end.

Definition phase_of (session_id : string) (w : World) : phase :=
  phase_in session_id (sessions w).

(** The transitions of a session that one call may cause. *)
Inductive sm_step : phase → phase → Prop :=
  | sm_stay p : sm_step p p
  | sm_create : sm_step Nonexistent Active
  | sm_close : sm_step Active Closed.

(** What one call can do to the two collections of [w]. *)
Inductive store_step (env : Env) (w : World) : list doc → list doc → Prop :=
  | step_none : store_step env w (sessions w) (messages w)
  | step_create session_id :
      coll_find_one {[ "_id" := VStr session_id ]} (sessions w) = None →
      store_step env w (sessions w ++ [fresh_session env session_id w]) (messages w)
  | step_insert session_id role content :
      store_step env w (sessions w)
        (messages w ++ [new_message env session_id role content w])
  | step_save session_id role content :
      store_step env w
        (coll_update_one {[ "_id" := VStr session_id ]}
           {[ "updated_at" := VTime (utcnow env (S (ticks w))) ]} (sessions w)).1
        (messages w ++ [new_message env session_id role content w])
  | step_close session_id :
      store_step env w
        (coll_update_one {[ "_id" := VStr session_id ]} (closing env w)
           (sessions w)).1
        (messages w).

(** ** The module-level singleton: [get_database] and [close_database] *)

Module Singleton.

(** A [MongoClient]: all that matters here is whether it has been closed. *)
Record MongoClient := mkClient { is_open : bool }.

(** An object of class [MongoDB]: its [client] attribute. *)
Record MongoDB := mkMongoDB { client : option MongoClient }.

(** The objects of the process, by address, and the two module globals
    (lines 18 and 218 of the source), each [None] or a reference. *)
Record Process := mkProcess {
  heap : list MongoDB;
  _database_instance : option nat;
  _db_instance : option nat
}.

(** The state after the module has been imported. *)
Definition initial : Process := mkProcess [] None None.

(** [MongoDB()]: [__init__] calls [connect], which opens a client and
    pings the server; a failed ping is re-raised and no object is
    returned. *)
Definition new_MongoDB (reachable : bool) (p : Process) : outcome nat * Process :=
  if reachable
  then (Returns (length (heap p)),
        mkProcess (heap p ++ [mkMongoDB (Some (mkClient true))])
                  (_database_instance p) (_db_instance p))
  else (Raises PyMongoError, p).

(** [self.close_connection()] on the object at address [a]. *)
Definition close_connection (a : nat) (p : Process) : Process :=
  match heap p !! a with
  | Some (mkMongoDB (Some _)) =>
      mkProcess (<[a := mkMongoDB (Some (mkClient false))]> (heap p))
                (_database_instance p) (_db_instance p)
  | _ => p
  end.

Definition get_database (reachable : bool) (p : Process) : outcome nat * Process :=
  match _database_instance p with
  | None =>
      match new_MongoDB reachable p with
      | (Returns a, p') =>
          (Returns a, mkProcess (heap p') (Some a) (_db_instance p'))
      | (Raises e, p') => (Raises e, p')
      end
  | Some a => (Returns a, p)
  end.

Definition close_database (p : Process) : Process :=
  match _db_instance p with
  | Some a =>
      let p' := close_connection a p in
      mkProcess (heap p') (_database_instance p') None
  | None => p
  end.

(** Whether the connection of the object at [a] is open. *)
Definition connection_open (a : nat) (p : Process) : bool :=
  match heap p !! a with
  | Some (mkMongoDB (Some c)) => is_open c
  | _ => false
  end.

Inductive gcall := GetDatabase (reachable : bool) | CloseDatabase.

Definition run (c : gcall) (p : Process) : Process :=
  match c with
  | GetDatabase reachable => (get_database reachable p).2
  | CloseDatabase => close_database p
  end.

Definition run_all (cs : list gcall) (p : Process) : Process :=
  foldl (λ p c, run c p) p cs.

End Singleton.

(** ** The methods with their [print] calls

    [create_session], [get_session] and [save_message] print their
    arguments, in the [try] block and again in the [except] handler;
    [get_session_stats] calls [get_session].  [print] raises
    [UnicodeEncodeError] when standard output cannot encode the text.
    The texts of exceptions, ObjectIds and counts are taken to be
    printable; the [logger] calls never raise. *)

Module Stdout.

Section Printing.

(** Whether standard output can encode a text. *)
Variable encodable : string → bool.
Variable env : Env.

(** [print(f"... {a} ... {b} ...")] for the argument texts [parts]. *)
Definition print (parts : list string) : M unit :=
  if forallb encodable parts then ret tt else raise UnicodeEncodeError.

Definition create_session (session_id : string) : M (option doc) :=
  try_except
    (print [session_id] ;;
     let* created := datetime_utcnow env in
     let* updated := datetime_utcnow env in
     let session_data : doc :=
       {[ "_id" := VStr session_id;
          "created_at" := VTime created;
          "updated_at" := VTime updated;
          "status" := VStr "active" ]} in
     let* existing := find_one env Sessions {[ "_id" := VStr session_id ]} in
     if truthy existing then
       print [session_id] ;;
       ret existing
     else
       insert_one env Sessions session_data ;;
       print [session_id; session_id] ;;
       ret (Some session_data))
    (λ _, print [session_id] ;; ret None).

Definition get_session (session_id : string) : M (option doc) :=
  try_except
    (print [session_id] ;;
     let* session := find_one env Sessions {[ "_id" := VStr session_id ]} in
     (if truthy session then print [session_id] else print [session_id]) ;;
     ret session)
    (λ _, print [session_id] ;; ret None).

(** [content[:100]]. *)
Definition preview (content : string) : string := String.substring 0 100 content.

Definition save_message (session_id role content : string) : M bool :=
  try_except
    (print [session_id; role] ;;
     print [preview content] ;;
     let* now := datetime_utcnow env in
     let message_data : doc :=
       {[ "session_id" := VStr session_id;
          "role" := VStr role;
          "content" := VStr content;
          "timestamp" := VTime now ]} in
     insert_one env Messages message_data ;;
     print [] ;;
     let* now' := datetime_utcnow env in
     update_one env Sessions {[ "_id" := VStr session_id ]}
                             {[ "updated_at" := VTime now' ]} ;;
     print [] ;;
     ret true)
    (λ _, print [session_id] ;; ret false).

Definition get_session_stats (session_id : string) : M doc :=
  try_except
    (let* session := get_session session_id in
     if negb (truthy session) then ret ∅
     else
       let s : doc := default ∅ session in
       let* message_count :=
         count_documents env Messages {[ "session_id" := VStr session_id ]} in
       let* user_messages :=
         count_documents env Messages {[ "session_id" := VStr session_id;
                                         "role" := VStr "user" ]} in
       let* assistant_messages :=
         count_documents env Messages {[ "session_id" := VStr session_id;
                                         "role" := VStr "assistant" ]} in
       let* created := getitem s "created_at" in
       let* updated := getitem s "updated_at" in
       ret ({[ "session_id" := VStr session_id;
               "total_messages" := VInt message_count;
               "user_messages" := VInt user_messages;
               "assistant_messages" := VInt assistant_messages;
               "created_at" := created;
               "updated_at" := updated ]} : doc))
    (λ _, ret ∅).

End Printing.

(** A standard output in UTF-8, texts being given by their bytes: it
    refuses a surrogate, whose bytes are [0xED] followed by a byte from
    [0xA0] on. *)
Fixpoint has_surrogate (s : string) : bool :=
  match s with
  | String c ((String d _) as s') =>
      ((Ascii.N_of_ascii c =? 237)%N && (160 <=? Ascii.N_of_ascii d)%N)
      || has_surrogate s'
  | _ => false
  end.

Definition utf8 (s : string) : bool := negb (has_surrogate s).

(** The text that holds the single code point U+DC80. *)
Definition lone_surrogate : string :=
  String (Ascii.ascii_of_N 237)
    (String (Ascii.ascii_of_N 178) (String (Ascii.ascii_of_N 128) EmptyString)).

End Stdout.

(** ** Sample runs *)

Definition empty_world : World := mkWorld [] [] 0 0.

(** A clock that advances by one millisecond per reading and stands a
    quarter of a millisecond past the full one, over a driver that never
    fails. *)
Definition demo_env : Env := mkEnv (λ n, Z.of_nat n * 1000 + 250) (λ _, false).

(** A driver whose first round trip fails. *)
Definition first_call_fails : Env :=
  mkEnv (λ n, Z.of_nat n * 1000 + 250) (λ n, bool_decide (n = 0%nat)).

(** A driver whose second round trip fails: in [save_message] the insert
    goes through and [update_one] raises. *)
Definition second_call_fails : Env :=
  mkEnv (λ n, Z.of_nat n * 1000 + 250) (λ n, bool_decide (n = 1%nat)).

(** The store after [create_session("s1")]. *)
Definition one_session : World := (create_session demo_env "s1" empty_world).2.

(** A store that holds a single message. *)
Definition one_message : World :=
  mkWorld []
    [ {[ "_id" := VOid 1; "session_id" := VStr "s1"; "role" := VStr "user";
         "content" := VStr "hi"; "timestamp" := VTime 0 ]} ]
    1 2.

(** The scenario of the specification: [create_session("s1")],
    [save_message("s1", "user", "hi")],
    [save_message("s1", "assistant", "hello")], and the history it is
    expected to yield. *)
Definition demo_world : World :=
  (save_message demo_env "s1" "assistant" "hello"
     (save_message demo_env "s1" "user" "hi" one_session).2).2.

Definition demo_history : list doc :=
  [ {[ "role" := VStr "user"; "content" := VStr "hi" ]};
    {[ "role" := VStr "assistant"; "content" := VStr "hello" ]} ].

(** A clock that runs backwards, one millisecond per reading, and a store
    filled under it: the three messages of session ["s1"] are stored in
    the order third, second, first of their timestamps, a message of
    another session in between. *)
Definition shuffled_env : Env :=
  mkEnv (λ n, (20 - Z.of_nat n) * 1000 + 400) (λ _, false).

Definition shuffled_world : World :=
  exec_all shuffled_env
    [SaveMessage "s1" "user" "third"; SaveMessage "s2" "user" "other";
     SaveMessage "s1" "assistant" "second"; SaveMessage "s1" "user" "first"]
    empty_world.

(** A session of three user and two assistant messages. *)
Definition stats_world : World :=
  (save_message demo_env "s1" "user" "bye"
     (save_message demo_env "s1" "assistant" "fine"
        (save_message demo_env "s1" "user" "how are you"
           demo_world).2).2).2.

(** ** Further definitions: whole-store steps and store invariants *)

(** What one call can do to the whole store [w], clock and round-trip
    counters included. *)
Inductive world_step (env : Env) (w : World) : World → Prop :=
  | wstep_none t c : world_step env w (advance t c w)
  | wstep_create session_id :
      coll_find_one {[ "_id" := VStr session_id ]} (sessions w) = None →
      world_step env w
        (mkWorld (sessions w ++ [fresh_session env session_id w]) (messages w)
                 (S (S (ticks w))) (S (S (calls w))))
  | wstep_insert session_id role content :
      world_step env w
        (mkWorld (sessions w)
                 (messages w ++ [new_message env session_id role content w])
                 (S (S (ticks w))) (S (S (calls w))))
  | wstep_save session_id role content :
      world_step env w
        (mkWorld (coll_update_one {[ "_id" := VStr session_id ]}
                    {[ "updated_at" := VTime (utcnow env (S (ticks w))) ]}
                    (sessions w)).1
                 (messages w ++ [new_message env session_id role content w])
                 (S (S (ticks w))) (S (S (calls w))))
  | wstep_close session_id :
      world_step env w
        (mkWorld (coll_update_one {[ "_id" := VStr session_id ]} (closing env w)
                    (sessions w)).1
                 (messages w) (S (ticks w)) (S (calls w))).

(** The [_id]s of the records of a collection. *)
Definition ids (l : list doc) : list (option value) := map (λ d, d !! "_id") l.

(** A message that makes [history_entry] raise [KeyError]. *)
Definition msg_broken (m : doc) : Prop :=
  m !! "role" = None ∨ m !! "content" = None.

(** [a] was stamped strictly before [b]. *)
Definition stamped_before (a b : doc) : Prop :=
  ∃ x y : time,
    a !! "timestamp" = Some (VTime x) ∧ b !! "timestamp" = Some (VTime y) ∧ x < y.

(** The session records carry clock readings, [created_at] read no later
    than [updated_at], both already taken. *)
Definition session_stamped (env : Env) (w : World) (s : doc) : Prop :=
  ∃ i j : nat,
    (i ≤ j < ticks w)%nat
    ∧ s !! "created_at" = Some (VTime (utcnow env i))
    ∧ s !! "updated_at" = Some (VTime (utcnow env j)).

(** A message carries a clock reading already taken. *)
Definition message_stamped (env : Env) (w : World) (m : doc) : Prop :=
  ∃ i : nat, (i < ticks w)%nat ∧ m !! "timestamp" = Some (VTime (utcnow env i)).

(** Stores for the edge cases: a message without a role, a session
    record without timestamps, a message with a role that is neither
    [user] nor [assistant]. *)
Definition broken_message_world : World :=
  mkWorld []
    [ {[ "_id" := VOid 1; "session_id" := VStr "s1"; "role" := VStr "user";
         "content" := VStr "hi"; "timestamp" := VTime 0 ]};
      {[ "_id" := VOid 2; "session_id" := VStr "s1";
         "content" := VStr "lost"; "timestamp" := VTime 1000 ]} ]
    2 4.

Definition bare_session_world : World :=
  mkWorld [ {[ "_id" := VStr "s1"; "status" := VStr "active" ]} ] [] 0 0.


(** The two states the globals can be in: nothing created yet, or one
    object, referenced by [_database_instance], with an open client. *)
Definition singleton_state (p : Singleton.Process) : Prop :=
  Singleton._db_instance p = None
  ∧ ((Singleton._database_instance p = None ∧ Singleton.heap p = [])
     ∨ (Singleton._database_instance p = Some 0%nat
        ∧ Singleton.heap p
          = [Singleton.mkMongoDB (Some (Singleton.mkClient true))])).

(** ** Tactics for unfolding a method run *)

Ltac unfold_methods :=
  unfold create_session, get_session, save_message, get_chat_history,
    get_session_stats, close_session, find_one, insert_one, update_one,
    count_documents, find_sort_limit, datetime_utcnow, round_trip,
    try_except, bind, ret, raise;
  cbn [sessions messages ticks calls get_coll set_coll fst snd].

Ltac reduce_world :=
  cbn [sessions messages ticks calls get_coll set_coll fst snd negb].

(** Refutes [H : faulted env w w'] when every round trip between [w]
    and [w'] is known not to fail. *)
Ltac refute_faulted H :=
  let n := fresh "n" in
  let Hn := fresh "Hn" in
  let Hfn := fresh "Hfn" in
  destruct H as (n & Hn & Hfn);
  cbn [calls advance Nat.add] in Hn;
  repeat match goal with
         | Hf : fault _ ?k = false |- _ =>
             destruct (decide (n = k)) as [->|]; [congruence|]; clear Hf
         end;
  lia.

(** * Properties *)

(** ** Facts about the driver's collections *)

Lemma matches_singleton (k : string) (v : value) (d : doc) :
  matches {[ k := v ]} d = true ↔ d !! k = Some v.
Proof.
  unfold matches. rewrite bool_decide_eq_true.
  apply map_singleton_subseteq_l.
Qed.

Lemma matches_singleton_false (k : string) (v : value) (d : doc) :
  matches {[ k := v ]} d = false ↔ d !! k ≠ Some v.
Proof.
  rewrite <- matches_singleton. destruct (matches _ d); split; congruence.
Qed.

Lemma matches_nonempty (q d : doc) :
  q ≠ ∅ → matches q d = true → d ≠ ∅.
Proof.
  unfold matches. rewrite bool_decide_eq_true. intros Hq Hsub ->.
  apply Hq. apply map_eq. intros i. rewrite lookup_empty.
  destruct (q !! i) as [x|] eqn:E; [|done].
  eapply lookup_weaken in E; [|exact Hsub]. by rewrite lookup_empty in E.
Qed.

Lemma coll_find_one_None (q : doc) (c : list doc) :
  coll_find_one q c = None ↔ Forall (λ d, matches q d = false) c.
Proof.
  unfold coll_find_one, coll_find. induction c as [|d c IH]; simpl.
  - split; [constructor|done].
  - destruct (matches q d) eqn:E; simpl.
    + split; [done|]. intros H. inversion H; congruence.
    + rewrite IH. split; [by constructor|]. intros H. by inversion H.
Qed.

Lemma coll_find_one_Some (q : doc) (c : list doc) (d : doc) :
  coll_find_one q c = Some d →
  ∃ l1 l2, c = l1 ++ d :: l2 ∧ matches q d = true
           ∧ Forall (λ x, matches q x = false) l1.
Proof.
  unfold coll_find_one, coll_find. induction c as [|x c IH]; simpl; [done|].
  destruct (matches q x) eqn:E; simpl.
  - intros [= ->]. by exists [], c.
  - intros H. destruct (IH H) as (l1 & l2 & -> & Hm & Hl).
    exists (x :: l1), l2. split_and!; [done|done|by constructor].
Qed.

Lemma coll_find_one_split (q : doc) (l1 l2 : list doc) (d : doc) :
  Forall (λ x, matches q x = false) l1 → matches q d = true →
  coll_find_one q (l1 ++ d :: l2) = Some d.
Proof.
  unfold coll_find_one, coll_find. intros Hl Hd.
  induction Hl as [|x l1 Hx _ IH]; simpl.
  - by rewrite Hd.
  - by rewrite Hx.
Qed.

Lemma coll_find_one_elem (q : doc) (c : list doc) (d : doc) :
  coll_find_one q c = Some d → d ∈ c ∧ matches q d = true.
Proof.
  intros H. destruct (coll_find_one_Some _ _ _ H) as (l1 & l2 & -> & Hm & _).
  split; [|done]. set_solver.
Qed.

Lemma coll_update_one_None (q upd : doc) (c : list doc) :
  coll_find_one q c = None →
  coll_update_one q upd c = (c, mkUpdateResult 0 0).
Proof.
  rewrite coll_find_one_None. induction 1 as [|d c Hd _ IH]; simpl; [done|].
  by rewrite Hd, IH.
Qed.

Lemma coll_update_one_split (q upd : doc) (l1 l2 : list doc) (d : doc) :
  Forall (λ x, matches q x = false) l1 → matches q d = true →
  (coll_update_one q upd (l1 ++ d :: l2)).1 = l1 ++ (upd ∪ d) :: l2.
Proof.
  intros Hl Hd. induction Hl as [|x l1 Hx _ IH]; simpl.
  - by rewrite Hd.
  - rewrite Hx. destruct (coll_update_one q upd (l1 ++ d :: l2)); simpl in *.
    by rewrite IH.
Qed.

Lemma coll_update_one_length (q upd : doc) (c : list doc) :
  length (coll_update_one q upd c).1 = length c.
Proof.
  induction c as [|d c IH]; simpl; [done|].
  destruct (matches q d); simpl; [done|].
  destruct (coll_update_one q upd c); simpl in *. by rewrite IH.
Qed.

Lemma oid_le_fresh (c : list doc) (e : doc) :
  e ∈ c → (oid_of e < fresh_oid c)%N.
Proof.
  unfold fresh_oid. induction 1 as [e c|e x c _ IH]; simpl; lia.
Qed.

Lemma fresh_oid_unused (c : list doc) :
  coll_find_one {[ "_id" := VOid (fresh_oid c) ]} c = None.
Proof.
  apply coll_find_one_None, Forall_forall. intros e Hin.
  apply matches_singleton_false. intros He.
  apply oid_le_fresh in Hin. unfold oid_of in Hin. rewrite He in Hin. lia.
Qed.

(** Inserting a document that brings no [_id]: the driver adds a fresh one. *)
Lemma coll_insert_one_fresh (d : doc) (c : list doc) :
  d !! "_id" = None →
  coll_insert_one d c =
    Returns (VOid (fresh_oid c), c ++ [<["_id" := VOid (fresh_oid c)]> d]).
Proof.
  intros Hd. unfold coll_insert_one. by rewrite Hd, fresh_oid_unused.
Qed.

(** Inserting a document whose [_id] no stored document has. *)
Lemma coll_insert_one_new (d : doc) (v : value) (c : list doc) :
  d !! "_id" = Some v →
  coll_find_one {[ "_id" := v ]} c = None →
  coll_insert_one d c = Returns (v, c ++ [d]).
Proof.
  intros Hd Hc. unfold coll_insert_one. by rewrite Hd, Hc, insert_id.
Qed.

(** *** The sort order *)

Lemma str_leb_total (a b : string) : str_leb a b = true ∨ str_leb b a = true.
Proof.
  revert b. induction a as [|x a IH]; intros [|y b]; simpl; auto.
  destruct (N.ltb_spec (Ascii.N_of_ascii x) (Ascii.N_of_ascii y)); [auto|].
  destruct (N.ltb_spec (Ascii.N_of_ascii y) (Ascii.N_of_ascii x)); [auto|].
  assert (Ascii.N_of_ascii x = Ascii.N_of_ascii y) as -> by lia.
  rewrite N.eqb_refl. apply IH.
Qed.

Lemma str_leb_trans (a b c : string) :
  str_leb a b = true → str_leb b c = true → str_leb a c = true.
Proof.
  revert b c. induction a as [|x a IH]; intros [|y b] [|z c]; simpl; try done.
  destruct (N.ltb_spec (Ascii.N_of_ascii x) (Ascii.N_of_ascii y)) as [Hxy|Hxy];
    destruct (N.ltb_spec (Ascii.N_of_ascii y) (Ascii.N_of_ascii z)) as [Hyz|Hyz];
    destruct (N.ltb_spec (Ascii.N_of_ascii x) (Ascii.N_of_ascii z)) as [Hxz|Hxz];
    try done; try lia.
  - destruct (N.eqb_spec (Ascii.N_of_ascii y) (Ascii.N_of_ascii z)); [lia|done].
  - destruct (N.eqb_spec (Ascii.N_of_ascii x) (Ascii.N_of_ascii y)); [lia|done].
  - destruct (N.eqb_spec (Ascii.N_of_ascii x) (Ascii.N_of_ascii y)); [|done].
    destruct (N.eqb_spec (Ascii.N_of_ascii y) (Ascii.N_of_ascii z)); [|done].
    destruct (N.eqb_spec (Ascii.N_of_ascii x) (Ascii.N_of_ascii z)); [|lia].
    apply IH.
Qed.

Lemma bson_leb_total (a b : option value) :
  bson_leb a b = true ∨ bson_leb b a = true.
Proof.
  destruct a as [[]|], b as [[]|]; simpl; auto using str_leb_total;
    rewrite ?Z.leb_le, ?N.leb_le; lia.
Qed.

Lemma bson_leb_trans (a b c : option value) :
  bson_leb a b = true → bson_leb b c = true → bson_leb a c = true.
Proof.
  destruct a as [[]|], b as [[]|], c as [[]|]; simpl; try done;
    try apply str_leb_trans; rewrite ?Z.leb_le, ?N.leb_le; lia.
Qed.

Global Instance field_le_total k : Total (field_le k).
Proof. intros d1 d2. apply bson_leb_total. Qed.

Global Instance field_le_trans k : Transitive (field_le k).
Proof. intros d1 d2 d3. apply bson_leb_trans. Qed.

(** On documents that carry dates the order is the order of the dates. *)
Lemma field_le_time (k : string) (d1 d2 : doc) (a b : time) :
  d1 !! k = Some (VTime a) → d2 !! k = Some (VTime b) →
  field_le k d1 d2 ↔ a ≤ b.
Proof.
  intros H1 H2. unfold field_le. rewrite H1, H2. simpl. apply Z.leb_le.
Qed.

Lemma sort_insert_perm (k : string) (d : doc) (l : list doc) :
  sort_insert k d l ≡ₚ d :: l.
Proof.
  induction l as [|x l IH]; cbn [sort_insert]; [done|].
  destruct (bson_leb (d !! k) (x !! k)); [done|].
  rewrite IH. apply Permutation_swap.
Qed.

Lemma sort_insert_sorted (k : string) (d : doc) (l : list doc) :
  StronglySorted (field_le k) l → StronglySorted (field_le k) (sort_insert k d l).
Proof.
  induction 1 as [|x l Hl IH Hx]; cbn [sort_insert].
  - repeat constructor.
  - destruct (bson_leb (d !! k) (x !! k)) eqn:Hdx.
    + constructor; [by constructor|]. constructor; [done|].
      eapply Forall_impl; [exact Hx|]. intros y Hxy.
      by apply (bson_leb_trans _ (x !! k)).
    + constructor; [done|]. rewrite sort_insert_perm. constructor; [|done].
      destruct (bson_leb_total (x !! k) (d !! k)) as [H|H]; [done|congruence].
Qed.

Lemma coll_sort_sorted (k : string) (c : list doc) :
  StronglySorted (field_le k) (coll_sort k c).
Proof.
  unfold coll_sort. induction c as [|d c IH]; cbn [foldr]; [constructor|].
  by apply sort_insert_sorted.
Qed.

Lemma coll_sort_perm (k : string) (c : list doc) : coll_sort k c ≡ₚ c.
Proof.
  unfold coll_sort. induction c as [|d c IH]; cbn [foldr]; [done|].
  by rewrite sort_insert_perm, IH.
Qed.

Lemma coll_limit_split (n : Z) (c : list doc) :
  ∃ rest, c = coll_limit n c ++ rest
          ∧ (n ≠ 0 → length (coll_limit n c) = (Z.to_nat (Z.abs n) `min` length c)%nat)
          ∧ (n = 0 → rest = []).
Proof.
  unfold coll_limit. destruct (Z.eqb_spec n 0) as [->|Hn].
  - exists []. by rewrite app_nil_r.
  - exists (drop (Z.to_nat (Z.abs n)) c).
    rewrite take_drop, length_take. done.
Qed.

(** ** Reasoning about method runs *)

Lemma find_one_id_truthy (v : value) (c : list doc) (d : doc) :
  coll_find_one {[ "_id" := v ]} c = Some d → truthy (Some d) = true.
Proof.
  intros H. apply coll_find_one_elem in H as [_ H]. simpl.
  apply bool_decide_eq_true. eapply matches_nonempty; [|exact H].
  apply insert_non_empty.
Qed.

Lemma create_session_present (env : Env) (session_id : string) (w : World)
    (existing : doc) :
  fault env (calls w) = false →
  coll_find_one {[ "_id" := VStr session_id ]} (sessions w) = Some existing →
  create_session env session_id w =
    (Returns (Some existing),
     mkWorld (sessions w) (messages w) (S (S (ticks w))) (S (calls w))).
Proof.
  intros Hf Hfind. unfold_methods. rewrite Hf, Hfind.
  by rewrite (find_one_id_truthy _ _ _ Hfind).
Qed.

(** What the driver's encoding does to the dicts the methods write. *)
Lemma bson_session_data (env : Env) (session_id : string) (w : World) :
  bson_doc (session_data env session_id w) = fresh_session env session_id w.
Proof.
  unfold bson_doc, session_data, fresh_session.
  by rewrite !fmap_insert, map_fmap_singleton.
Qed.

Lemma bson_updated_at (t : time) :
  bson_doc {[ "updated_at" := VTime t ]}
  = {[ "updated_at" := VTime (to_millis t) ]}.
Proof. unfold bson_doc. by rewrite map_fmap_singleton. Qed.

Lemma create_session_absent (env : Env) (session_id : string) (w : World) :
  fault env (calls w) = false →
  fault env (S (calls w)) = false →
  coll_find_one {[ "_id" := VStr session_id ]} (sessions w) = None →
  create_session env session_id w =
    (Returns (Some (session_data env session_id w)),
     mkWorld (sessions w ++ [fresh_session env session_id w]) (messages w)
             (S (S (ticks w))) (S (S (calls w)))).
Proof.
  intros Hf1 Hf2 Hfind. unfold_methods. rewrite Hf1, Hfind.
  cbn [truthy]. reduce_world. rewrite Hf2.
  fold (session_data env session_id w). rewrite bson_session_data.
  by rewrite (coll_insert_one_new _ (VStr session_id)).
Qed.

Lemma find_one_appended (q : doc) (c : list doc) (d : doc) :
  coll_find_one q c = None → matches q d = true →
  coll_find_one q (c ++ [d]) = Some d.
Proof.
  intros Hc Hd. apply coll_find_one_split; [|done].
  by apply coll_find_one_None.
Qed.

(** C5: [create_session] on an absent id builds a record with status
    [active] whose [created_at] and [updated_at] are the two clock
    readings the call takes, inserts it and returns it; the store keeps
    it with its dates cut to the millisecond.  On a present id it
    returns the stored record and changes neither collection. *)
Theorem create_session_spec (env : Env) (session_id : string) (w : World) :
  fault env (calls w) = false →
  fault env (S (calls w)) = false →
  let returned : doc :=
    {[ "_id" := VStr session_id;
       "created_at" := VTime (clock env (ticks w));
       "updated_at" := VTime (clock env (S (ticks w)));
       "status" := VStr "active" ]} in
  let stored : doc :=
    {[ "_id" := VStr session_id;
       "created_at" := VTime (to_millis (clock env (ticks w)));
       "updated_at" := VTime (to_millis (clock env (S (ticks w))));
       "status" := VStr "active" ]} in
  match coll_find_one {[ "_id" := VStr session_id ]} (sessions w) with
  | None =>
      (create_session env session_id w).1 = Returns (Some returned)
      ∧ sessions (create_session env session_id w).2 = sessions w ++ [stored]
  | Some existing =>
      (create_session env session_id w).1 = Returns (Some existing)
      ∧ sessions (create_session env session_id w).2 = sessions w
  end
  ∧ messages (create_session env session_id w).2 = messages w.
Proof.
  intros Hf1 Hf2 returned stored.
  destruct (coll_find_one _ (sessions w)) as [existing|] eqn:Hfind.
  - by rewrite (create_session_present _ _ _ _ Hf1 Hfind).
  - by rewrite (create_session_absent _ _ _ Hf1 Hf2 Hfind).
Qed.

(** C1: two successive [create_session] calls with the same id return
    records carrying that id, and only the first can insert: it appends
    one record when the id was absent and none when it was present; the
    second call inserts nothing and returns the stored record, which for
    a new id is the record the first call returned as the store keeps
    it. *)
Theorem create_session_idempotent (env : Env) (session_id : string) (w : World) :
  (∀ n, (calls w ≤ n < 3 + calls w)%nat → fault env n = false) →
  let first := create_session env session_id w in
  let second := create_session env session_id first.2 in
  ∃ d1 d2 : doc,
    first.1 = Returns (Some d1)
    ∧ second.1 = Returns (Some d2)
    ∧ d1 !! "_id" = Some (VStr session_id)
    ∧ d2 !! "_id" = Some (VStr session_id)
    ∧ coll_find_one {[ "_id" := VStr session_id ]} (sessions first.2) = Some d2
    ∧ sessions second.2 = sessions first.2
    ∧ (coll_find_one {[ "_id" := VStr session_id ]} (sessions w) = None →
       sessions first.2 = sessions w ++ [d2] ∧ d2 = bson_doc d1)
    ∧ (is_Some (coll_find_one {[ "_id" := VStr session_id ]} (sessions w)) →
       sessions first.2 = sessions w ∧ d2 = d1)
    ∧ messages second.2 = messages w.
Proof.
  intros Hf first second. subst first second.
  destruct (coll_find_one {[ "_id" := VStr session_id ]} (sessions w))
    as [existing|] eqn:Hfind.
  - rewrite (create_session_present _ _ _ existing);
      [|apply Hf; lia|exact Hfind].
    cbn [fst snd].
    rewrite (create_session_present _ _ _ existing);
      [|apply Hf; cbn [calls]; lia|exact Hfind].
    cbn [fst snd sessions messages].
    assert (Hid : existing !! "_id" = Some (VStr session_id)).
    { apply coll_find_one_elem in Hfind as [_ Hm]. by apply matches_singleton. }
    exists existing, existing.
    split_and!; [done|done|done|done|done|done|intros [=]|done|done].
  - rewrite create_session_absent;
      [|apply Hf; lia|apply Hf; lia|exact Hfind].
    cbn [fst snd].
    assert (Hm : matches {[ "_id" := VStr session_id ]}
                   (fresh_session env session_id w) = true).
    { by apply matches_singleton. }
    pose proof (find_one_appended _ _ _ Hfind Hm) as Hfind'.
    rewrite (create_session_present _ _ _ (fresh_session env session_id w));
      [|apply Hf; cbn [calls]; lia|exact Hfind'].
    cbn [fst snd sessions messages].
    exists (session_data env session_id w), (fresh_session env session_id w).
    split_and!; [done|done|reflexivity|reflexivity|done|done| | |done].
    + intros _. split; [done|]. symmetry. apply bson_session_data.
    + by intros [? [=]].
Qed.

(** ** Chat history *)

Lemma chat_entry_dom (m e : doc) :
  chat_entry m e → dom e = {[ "role"; "content" ]}.
Proof.
  intros (role & content & _ & _ & ->).
  by rewrite dom_insert_L, dom_singleton_L.
Qed.

Lemma history_entry_wf (m : doc) (w : World) :
  msg_wf m → ∃ e, history_entry m w = (Returns e, w) ∧ chat_entry m e.
Proof.
  intros [[role Hr] [content Hc]].
  exists {[ "role" := role; "content" := content ]}. split.
  - unfold history_entry, getitem, bind, ret. by rewrite Hr, Hc.
  - by exists role, content.
Qed.

Lemma for_append_entries (l : list doc) (w : World) :
  Forall msg_wf l →
  ∃ h, for_append history_entry l w = (Returns h, w) ∧ Forall2 chat_entry l h.
Proof.
  induction 1 as [|m l Hm _ (h & IH & Hh)].
  - exists []. split; [done|constructor].
  - destruct (history_entry_wf m w Hm) as (e & He & Hme).
    exists (e :: h). split; [|by constructor].
    cbn [for_append]. unfold bind at 1. rewrite He.
    unfold bind at 1. by rewrite IH.
Qed.

Lemma coll_find_elem (q : doc) (c : list doc) (d : doc) :
  d ∈ coll_find q c ↔ d ∈ c ∧ matches q d = true.
Proof. unfold coll_find. rewrite !list_elem_of_In. apply filter_In. Qed.

Lemma Forall_coll_find (P : doc → Prop) (q : doc) (c : list doc) :
  Forall P c → Forall P (coll_find q c).
Proof.
  rewrite !Forall_forall. intros H d Hd. apply H.
  by apply coll_find_elem in Hd as [? _].
Qed.

Lemma Forall_coll_limit (P : doc → Prop) (n : Z) (c : list doc) :
  Forall P c → Forall P (coll_limit n c).
Proof.
  unfold coll_limit. destruct (n =? 0); [done|apply Forall_take].
Qed.

Lemma Forall_selected (P : doc → Prop) (session_id : string) (limit : Z) (w : World) :
  Forall P (messages w) → Forall P (selected session_id limit w).
Proof.
  intros H. apply Forall_coll_limit.
  rewrite coll_sort_perm. by apply Forall_coll_find.
Qed.

Lemma get_chat_history_ok (env : Env) (session_id : string) (limit : Z) (w : World) :
  fault env (calls w) = false →
  Forall msg_wf (messages w) →
  ∃ h, get_chat_history env session_id limit w =
         (Returns h, mkWorld (sessions w) (messages w) (ticks w) (S (calls w)))
       ∧ Forall2 chat_entry (selected session_id limit w) h.
Proof.
  intros Hf Hwf.
  destruct (for_append_entries (selected session_id limit w)
              (mkWorld (sessions w) (messages w) (ticks w) (S (calls w))))
    as (h & Hrun & Hh).
  { by apply Forall_selected. }
  exists h. split; [|done].
  unfold_methods. rewrite Hf. reduce_world.
  unfold selected in Hrun. by rewrite Hrun.
Qed.

(** C2 (amended: limit 0 is no limit): for a limit [k ≥ 0],
    [get_chat_history] returns one entry per selected message, each with
    exactly the fields [role] and [content]; the selected messages are
    messages of the session in non-decreasing [timestamp] order and no
    message left out sorts before a selected one; for [k > 0] there are
    [min k n] of them for a session of [n] messages, for [k = 0] all
    [n]. *)
Theorem get_chat_history_spec (env : Env) (session_id : string) (k : Z) (w : World) :
  fault env (calls w) = false →
  Forall msg_wf (messages w) →
  0 ≤ k →
  ∃ sel rest h : list doc,
    (get_chat_history env session_id k w).1 = Returns h
    ∧ Forall2 chat_entry sel h
    ∧ Forall (λ e : doc, dom e = {[ "role"; "content" ]}) h
    ∧ sel ++ rest ≡ₚ coll_find {[ "session_id" := VStr session_id ]} (messages w)
    ∧ StronglySorted (field_le "timestamp") sel
    ∧ (∀ x y, x ∈ sel → y ∈ rest → field_le "timestamp" x y)
    ∧ (0 < k →
       length h =
         (Z.to_nat k `min`
            length (coll_find {[ "session_id" := VStr session_id ]} (messages w)))%nat
       ∧ Z.of_nat (length h) ≤ k)
    ∧ (k = 0 →
       rest = []
       ∧ length h
         = length (coll_find {[ "session_id" := VStr session_id ]} (messages w))).
Proof.
  intros Hf Hwf Hk.
  destruct (get_chat_history_ok env session_id k w Hf Hwf) as (h & Hrun & Hh).
  pose proof (coll_sort_sorted "timestamp"
    (coll_find {[ "session_id" := VStr session_id ]} (messages w))) as Hsorted.
  pose proof (coll_sort_perm "timestamp"
    (coll_find {[ "session_id" := VStr session_id ]} (messages w))) as Hperm.
  destruct (coll_limit_split k (coll_sort "timestamp"
    (coll_find {[ "session_id" := VStr session_id ]} (messages w))))
    as (rest & Hsplit & Hlen & Hzero).
  fold (selected session_id k w) in Hsplit, Hlen.
  pose proof (Permutation_length Hperm) as Hcount.
  rewrite Hsplit in Hsorted, Hperm.
  apply StronglySorted_app in Hsorted as (Hcross & Hsel & _).
  pose proof (Forall2_length _ _ _ Hh) as Hhlen.
  exists (selected session_id k w), rest, h.
  split_and!; [by rewrite Hrun|done| |done|done|done| |].
  - apply Forall_forall. intros e He.
    apply list_elem_of_lookup in He as [i He].
    destruct (Forall2_lookup_r _ _ _ _ _ Hh He) as (m & _ & Hme).
    by eapply chat_entry_dom.
  - intros Hpos. rewrite <- Hhlen, Hlen, Hcount by lia.
    rewrite Z.abs_eq by lia. split; [done|lia].
  - intros ->. specialize (Hzero eq_refl). subst rest.
    split; [done|]. rewrite app_nil_r in Hsplit.
    by rewrite <- Hhlen, <- Hsplit, Hcount.
Qed.

(** C10: with [limit = 0] the whole history of a non-empty session is
    returned, not zero entries: one entry for each message of the
    session, in non-decreasing [timestamp] order. *)
Theorem get_chat_history_limit_zero (env : Env) (session_id : string) (w : World) :
  fault env (calls w) = false →
  Forall msg_wf (messages w) →
  coll_find {[ "session_id" := VStr session_id ]} (messages w) ≠ [] →
  ∃ sel h : list doc,
    (get_chat_history env session_id 0 w).1 = Returns h
    ∧ Forall2 chat_entry sel h
    ∧ sel ≡ₚ coll_find {[ "session_id" := VStr session_id ]} (messages w)
    ∧ StronglySorted (field_le "timestamp") sel
    ∧ length h
      = length (coll_find {[ "session_id" := VStr session_id ]} (messages w))
    ∧ h ≠ [].
Proof.
  intros Hf Hwf Hne.
  destruct (get_chat_history_ok env session_id 0 w Hf Hwf) as (h & Hrun & Hh).
  unfold selected, coll_limit in Hh. cbn [Z.eqb] in Hh.
  assert (Hlen : length h
    = length (coll_find {[ "session_id" := VStr session_id ]} (messages w))).
  { rewrite <- (Forall2_length _ _ _ Hh).
    apply Permutation_length, coll_sort_perm. }
  eexists _, h.
  split_and!; [by rewrite Hrun|exact Hh|apply coll_sort_perm|
               apply coll_sort_sorted|exact Hlen|].
  intros ->. apply Hne. by apply nil_length_inv.
Qed.

(** A session whose three messages were stamped in falling order, read
    with limit 2: the two oldest come back, oldest first. *)
Lemma get_chat_history_spec_witness :
  (∃ sel rest h : list doc,
     (get_chat_history shuffled_env "s1" 2 shuffled_world).1 = Returns h
     ∧ Forall2 chat_entry sel h
     ∧ Forall (λ e : doc, dom e = {[ "role"; "content" ]}) h
     ∧ sel ++ rest
       ≡ₚ coll_find {[ "session_id" := VStr "s1" ]} (messages shuffled_world)
     ∧ StronglySorted (field_le "timestamp") sel
     ∧ (∀ x y, x ∈ sel → y ∈ rest → field_le "timestamp" x y)
     ∧ (0 < 2 →
        length h =
          (Z.to_nat 2 `min`
             length (coll_find {[ "session_id" := VStr "s1" ]}
                       (messages shuffled_world)))%nat
        ∧ Z.of_nat (length h) ≤ 2)
     ∧ (2 = 0 →
        rest = []
        ∧ length h
          = length (coll_find {[ "session_id" := VStr "s1" ]}
                      (messages shuffled_world))))
  ∧ (get_chat_history shuffled_env "s1" 2 shuffled_world).1
    = Returns [ {[ "role" := VStr "user"; "content" := VStr "first" ]};
                {[ "role" := VStr "assistant"; "content" := VStr "second" ]} ]
  ∧ length (coll_find {[ "session_id" := VStr "s1" ]} (messages shuffled_world))
    = 3%nat.
Proof.
  split; [|split; vm_compute; reflexivity].
  apply (get_chat_history_spec shuffled_env "s1" 2 shuffled_world).
  - reflexivity.
  - apply (bool_decide_unpack _). vm_compute. reflexivity.
  - lia.
Defined.

(** The scenario of the specification, and the same history read with
    [limit = 0]: both messages come back, more than [limit] entries. *)
Lemma get_chat_history_limit_counterexample :
  (get_chat_history demo_env "s1" 50 demo_world).1 = Returns demo_history
  ∧ (get_chat_history demo_env "s1" 0 demo_world).1 = Returns demo_history
  ∧ ¬ (Z.of_nat (length demo_history) ≤ 0).
Proof.
  split_and!; [vm_compute; reflexivity|vm_compute; reflexivity|].
  cbn [length demo_history]. lia.
Qed.

Lemma get_chat_history_limit_zero_witness :
  (∃ sel h : list doc,
     (get_chat_history shuffled_env "s1" 0 shuffled_world).1 = Returns h
     ∧ Forall2 chat_entry sel h
     ∧ sel ≡ₚ coll_find {[ "session_id" := VStr "s1" ]} (messages shuffled_world)
     ∧ StronglySorted (field_le "timestamp") sel
     ∧ length h
       = length (coll_find {[ "session_id" := VStr "s1" ]}
                   (messages shuffled_world))
     ∧ h ≠ [])
  ∧ (get_chat_history shuffled_env "s1" 0 shuffled_world).1
    = Returns [ {[ "role" := VStr "user"; "content" := VStr "first" ]};
                {[ "role" := VStr "assistant"; "content" := VStr "second" ]};
                {[ "role" := VStr "user"; "content" := VStr "third" ]} ].
Proof.
  split; [|vm_compute; reflexivity].
  apply (get_chat_history_limit_zero shuffled_env "s1" shuffled_world).
  - reflexivity.
  - apply (bool_decide_unpack _). vm_compute. reflexivity.
  - apply (bool_decide_unpack _). vm_compute. reflexivity.
Defined.

(** A new id on the empty store, and the same id again on the store
    that results. *)
Lemma create_session_spec_witness :
  ((create_session demo_env "s1" empty_world).1
     = Returns (Some {[ "_id" := VStr "s1"; "created_at" := VTime 250;
                        "updated_at" := VTime 1250; "status" := VStr "active" ]})
   ∧ sessions (create_session demo_env "s1" empty_world).2
     = [ {[ "_id" := VStr "s1"; "created_at" := VTime 0;
            "updated_at" := VTime 1000; "status" := VStr "active" ]} ])
  ∧ ((create_session demo_env "s1" one_session).1
       = Returns (Some {[ "_id" := VStr "s1"; "created_at" := VTime 0;
                          "updated_at" := VTime 1000; "status" := VStr "active" ]})
     ∧ sessions (create_session demo_env "s1" one_session).2
       = sessions one_session).
Proof.
  split.
  - exact (proj1 (create_session_spec demo_env "s1" empty_world eq_refl eq_refl)).
  - pose proof (create_session_spec demo_env "s1" one_session eq_refl eq_refl) as H.
    cbv zeta in H.
    assert (Hfind : coll_find_one {[ "_id" := VStr "s1" ]} (sessions one_session)
              = Some {[ "_id" := VStr "s1"; "created_at" := VTime 0;
                        "updated_at" := VTime 1000; "status" := VStr "active" ]}).
    { vm_compute. reflexivity. }
    rewrite Hfind in H. exact (proj1 H).
Defined.

Lemma create_session_idempotent_witness :
  ∃ d1 d2 : doc,
    (create_session demo_env "s2" empty_world).1 = Returns (Some d1)
    ∧ (create_session demo_env "s2"
         (create_session demo_env "s2" empty_world).2).1 = Returns (Some d2)
    ∧ d1 !! "_id" = Some (VStr "s2")
    ∧ d2 !! "_id" = Some (VStr "s2")
    ∧ d2 = bson_doc d1
    ∧ sessions (create_session demo_env "s2"
                  (create_session demo_env "s2" empty_world).2).2
      = sessions (create_session demo_env "s2" empty_world).2.
Proof.
  destruct (create_session_idempotent demo_env "s2" empty_world (λ n _, eq_refl))
    as (d1 & d2 & H1 & H2 & Hid1 & Hid2 & _ & Hsame & Hnew & _).
  exists d1, d2.
  split_and!; [exact H1|exact H2|exact Hid1|exact Hid2| |exact Hsame].
  apply Hnew. reflexivity.
Defined.

(** ** Saving a message *)

Lemma save_message_insert_fails (env : Env) (session_id role content : string)
    (w : World) :
  fault env (calls w) = true →
  save_message env session_id role content w =
    (Returns false,
     mkWorld (sessions w) (messages w) (S (ticks w)) (S (calls w))).
Proof. intros Hf. unfold_methods. by rewrite Hf. Qed.

Lemma save_message_update_fails (env : Env) (session_id role content : string)
    (w : World) :
  fault env (calls w) = false →
  fault env (S (calls w)) = true →
  save_message env session_id role content w =
    (Returns false,
     mkWorld (sessions w)
             (messages w ++ [new_message env session_id role content w])
             (S (S (ticks w))) (S (S (calls w)))).
Proof.
  intros Hf1 Hf2. unfold_methods. rewrite Hf1.
  rewrite coll_insert_one_fresh by reflexivity.
  reduce_world. by rewrite Hf2.
Qed.

Lemma save_message_ok (env : Env) (session_id role content : string)
    (w : World) :
  fault env (calls w) = false →
  fault env (S (calls w)) = false →
  save_message env session_id role content w =
    (Returns true,
     mkWorld (coll_update_one {[ "_id" := VStr session_id ]}
                {[ "updated_at" := VTime (utcnow env (S (ticks w))) ]}
                (sessions w)).1
             (messages w ++ [new_message env session_id role content w])
             (S (S (ticks w))) (S (S (calls w)))).
Proof.
  intros Hf1 Hf2. unfold_methods. rewrite Hf1.
  rewrite coll_insert_one_fresh by reflexivity.
  reduce_world. rewrite Hf2.
  by destruct (coll_update_one _ _ (sessions w)).
Qed.

(** C3 (amended): once the insert round trip goes through, the message
    record, stamped with the clock reading, is stored whatever happens
    to the session update.  The call returns [True] when the update
    round trip returns, also when it matches no session and so changes
    no session; it returns [False] when the update round trip raises. *)
Theorem save_message_spec (env : Env) (session_id role content : string)
    (w : World) :
  fault env (calls w) = false →
  let run := save_message env session_id role content w in
  let m := new_message env session_id role content w in
  messages run.2 = messages w ++ [m]
  ∧ m !! "timestamp" = Some (VTime (utcnow env (ticks w)))
  ∧ (fault env (S (calls w)) = false →
     run.1 = Returns true
     ∧ sessions run.2
       = (coll_update_one {[ "_id" := VStr session_id ]}
            {[ "updated_at" := VTime (utcnow env (S (ticks w))) ]}
            (sessions w)).1
     ∧ (coll_find_one {[ "_id" := VStr session_id ]} (sessions w) = None →
        sessions run.2 = sessions w))
  ∧ (fault env (S (calls w)) = true →
     run.1 = Returns false ∧ sessions run.2 = sessions w).
Proof.
  intros Hf1 run m. subst run m.
  destruct (fault env (S (calls w))) eqn:Hf2.
  - rewrite save_message_update_fails by done. cbn [fst snd sessions messages].
    split_and!; [done|reflexivity| |done]. intros [=].
  - rewrite save_message_ok by done. cbn [fst snd sessions messages].
    split_and!; [done|reflexivity| |intros [=]].
    intros _. split_and!; [done|done|].
    intros Hnone. by rewrite coll_update_one_None.
Qed.

Lemma save_message_spec_witness :
  let run := save_message second_call_fails "s1" "user" "hi" empty_world in
  let m := new_message second_call_fails "s1" "user" "hi" empty_world in
  messages run.2 = messages empty_world ++ [m]
  ∧ m !! "timestamp" = Some (VTime (utcnow second_call_fails (ticks empty_world)))
  ∧ (fault second_call_fails (S (calls empty_world)) = false →
     run.1 = Returns true
     ∧ sessions run.2
       = (coll_update_one {[ "_id" := VStr "s1" ]}
            {[ "updated_at" := VTime (utcnow second_call_fails (S (ticks empty_world))) ]}
            (sessions empty_world)).1
     ∧ (coll_find_one {[ "_id" := VStr "s1" ]} (sessions empty_world) = None →
        sessions run.2 = sessions empty_world))
  ∧ (fault second_call_fails (S (calls empty_world)) = true →
     run.1 = Returns false ∧ sessions run.2 = sessions empty_world).
Proof.
  exact (save_message_spec second_call_fails "s1" "user" "hi" empty_world eq_refl).
Defined.

(** The update round trip raises: the call returns [False] although the
    message has been inserted. *)
Lemma save_message_update_raises_counterexample :
  (save_message second_call_fails "s1" "user" "hi" empty_world).1 = Returns false
  ∧ messages (save_message second_call_fails "s1" "user" "hi" empty_world).2
    = [ {[ "_id" := VOid 1; "session_id" := VStr "s1"; "role" := VStr "user";
           "content" := VStr "hi"; "timestamp" := VTime 0 ]} ].
Proof. split; vm_compute; reflexivity. Qed.

(** ** Reading a session and its statistics *)

Lemma get_session_run (env : Env) (session_id : string) (w : World) :
  get_session env session_id w =
    (Returns (if fault env (calls w) then None
              else coll_find_one {[ "_id" := VStr session_id ]} (sessions w)),
     advance 0 1 w).
Proof. unfold_methods. by destruct (fault env (calls w)). Qed.

Lemma matches_two (k1 k2 : string) (v1 v2 : value) (m : doc) :
  k1 ≠ k2 →
  matches {[ k1 := v1; k2 := v2 ]} m
  = matches {[ k1 := v1 ]} m && bool_decide (m !! k2 = Some v2).
Proof.
  intros Hne. apply eq_true_iff_eq.
  rewrite andb_true_iff, bool_decide_eq_true, matches_singleton.
  unfold matches. rewrite bool_decide_eq_true, map_subseteq_spec.
  split.
  - intros H. split; apply H.
    + apply lookup_insert_eq.
    + rewrite lookup_insert_ne by done. apply lookup_singleton_eq.
  - intros [H1 H2] i x. rewrite lookup_insert_Some, lookup_singleton_Some.
    intros [[<- <-]|[_ [<- <-]]]; done.
Qed.

Lemma coll_find_role (session_id r : string) (c : list doc) :
  coll_find {[ "session_id" := VStr session_id; "role" := VStr r ]} c
  = with_role r (coll_find {[ "session_id" := VStr session_id ]} c).
Proof.
  unfold with_role, coll_find. induction c as [|m c IH]; [done|].
  cbn [List.filter]. rewrite matches_two by done.
  destruct (matches {[ "session_id" := VStr session_id ]} m); cbn [andb List.filter].
  - fold (has_role r m). destruct (has_role r m); by rewrite IH.
  - done.
Qed.

(** What [get_session_stats] does, round trip by round trip. *)
Lemma get_session_stats_run (env : Env) (session_id : string) (w : World) :
  get_session_stats env session_id w =
    if fault env (calls w) then (Returns ∅, advance 0 1 w)
    else match coll_find_one {[ "_id" := VStr session_id ]} (sessions w) with
         | None => (Returns ∅, advance 0 1 w)
         | Some s =>
             if fault env (S (calls w)) then (Returns ∅, advance 0 2 w)
             else if fault env (S (S (calls w))) then (Returns ∅, advance 0 3 w)
             else if fault env (S (S (S (calls w)))) then (Returns ∅, advance 0 4 w)
             else match s !! "created_at", s !! "updated_at" with
                  | Some created, Some updated =>
                      (Returns (stats_of session_id w created updated), advance 0 4 w)
                  | _, _ => (Returns ∅, advance 0 4 w)
                  end
         end.
Proof.
  unfold get_session_stats, try_except, bind at 1.
  rewrite get_session_run. cbn [fst snd].
  destruct (fault env (calls w)) eqn:Hf0; [by cbn [truthy negb]|].
  destruct (coll_find_one _ (sessions w)) as [s|] eqn:Hfind;
    [|by cbn [truthy negb]].
  rewrite (find_one_id_truthy _ _ _ Hfind). cbn [negb default from_option id].
  unfold count_documents, round_trip, bind, ret, advance.
  reduce_world. cbn [Nat.add].
  destruct (fault env (S (calls w))); [done|]. reduce_world.
  destruct (fault env (S (S (calls w)))); [done|]. reduce_world.
  destruct (fault env (S (S (S (calls w))))); [done|]. reduce_world.
  unfold getitem, raise.
  destruct (s !! "created_at") as [created|]; [|done].
  destruct (s !! "updated_at") as [updated|]; [|done].
  unfold stats_of, session_messages, coll_count, ret.
  by rewrite !coll_find_role.
Qed.

Lemma role_split (l : list doc) :
  Forall (λ m, has_role "user" m || has_role "assistant" m = true) l →
  length l
  = (length (with_role "user" l) + length (with_role "assistant" l))%nat.
Proof.
  unfold with_role. induction 1 as [|m l Hm _ IH]; [done|].
  cbn [List.filter length]. rewrite IH.
  destruct (has_role "user" m) eqn:Hu, (has_role "assistant" m) eqn:Ha;
    cbn [length]; [|lia|lia|done].
  unfold has_role in Hu, Ha. apply bool_decide_eq_true in Hu, Ha. congruence.
Qed.

Lemma get_session_stats_faulted (env : Env) (session_id : string) (w : World) :
  faulted env w (get_session_stats env session_id w).2 →
  (get_session_stats env session_id w).1 = Returns ∅.
Proof.
  rewrite get_session_stats_run.
  destruct (fault env (calls w)) eqn:Hf0; [done|].
  destruct (coll_find_one _ (sessions w)) as [s|]; [|done].
  destruct (fault env (S (calls w))) eqn:Hf1; [done|].
  destruct (fault env (S (S (calls w)))) eqn:Hf2; [done|].
  destruct (fault env (S (S (S (calls w))))) eqn:Hf3; [done|].
  destruct (s !! "created_at"); [|done].
  destruct (s !! "updated_at"); [|done].
  cbn [fst snd]. intros H. refute_faulted H.
Qed.

(** C6: for an existing session whose record carries its two timestamps,
    and with no failing round trip, [get_session_stats] returns the
    total, user and assistant message counts with [created_at] and
    [updated_at]; a session of 3 user and 2 assistant messages yields
    5, 3 and 2; an absent session or a failing round trip yields the
    empty mapping. *)
Theorem get_session_stats_spec (env : Env) (session_id : string) (w : World) :
  let run := get_session_stats env session_id w in
  (∀ (s : doc) (created updated : value),
     (∀ n, (calls w ≤ n < 4 + calls w)%nat → fault env n = false) →
     coll_find_one {[ "_id" := VStr session_id ]} (sessions w) = Some s →
     s !! "created_at" = Some created →
     s !! "updated_at" = Some updated →
     run.1 = Returns (stats_of session_id w created updated)
     ∧ dom (stats_of session_id w created updated)
       = {[ "session_id"; "total_messages"; "user_messages";
            "assistant_messages"; "created_at"; "updated_at" ]}
     ∧ (length (with_role "user" (session_messages session_id w)) = 3%nat →
        length (with_role "assistant" (session_messages session_id w)) = 2%nat →
        Forall (λ m, has_role "user" m || has_role "assistant" m = true)
               (session_messages session_id w) →
        stats_of session_id w created updated !! "total_messages" = Some (VInt 5)
        ∧ stats_of session_id w created updated !! "user_messages" = Some (VInt 3)
        ∧ stats_of session_id w created updated !! "assistant_messages"
          = Some (VInt 2)))
  ∧ (coll_find_one {[ "_id" := VStr session_id ]} (sessions w) = None →
     run.1 = Returns ∅)
  ∧ (faulted env w run.2 → run.1 = Returns ∅).
Proof.
  intros run. subst run. split_and!.
  - intros s created updated Hf Hfind Hc Hu.
    rewrite get_session_stats_run, Hfind, Hc, Hu.
    rewrite !Hf by lia. split_and!; [done| |].
    + unfold stats_of. rewrite !dom_insert_L, dom_singleton_L. set_solver.
    + intros H3 H2 Hroles. apply role_split in Hroles.
      unfold stats_of.
      rewrite lookup_insert_ne, lookup_insert_eq by done.
      rewrite !lookup_insert_ne, lookup_insert_eq by done.
      rewrite !(lookup_insert_ne _ "session_id"),
        !(lookup_insert_ne _ "total_messages"),
        !(lookup_insert_ne _ "user_messages"), lookup_insert_eq by done.
      rewrite Hroles, H3, H2. done.
  - intros Hfind. rewrite get_session_stats_run, Hfind.
    by destruct (fault env (calls w)).
  - apply get_session_stats_faulted.
Qed.

Lemma get_session_stats_spec_witness :
  (get_session_stats demo_env "s1" stats_world).1
    = Returns (stats_of "s1" stats_world (VTime 0) (VTime 11000))
  ∧ stats_of "s1" stats_world (VTime 0) (VTime 11000) !! "total_messages"
    = Some (VInt 5)
  ∧ stats_of "s1" stats_world (VTime 0) (VTime 11000) !! "user_messages"
    = Some (VInt 3)
  ∧ stats_of "s1" stats_world (VTime 0) (VTime 11000) !! "assistant_messages"
    = Some (VInt 2)
  ∧ (get_session_stats demo_env "nobody" stats_world).1 = Returns ∅.
Proof.
  destruct (get_session_stats_spec demo_env "s1" stats_world) as (Hfound & _ & _).
  destruct (get_session_stats_spec demo_env "nobody" stats_world) as (_ & Habsent & _).
  destruct (Hfound {[ "_id" := VStr "s1"; "created_at" := VTime 0;
                      "updated_at" := VTime 11000; "status" := VStr "active" ]}
              (VTime 0) (VTime 11000)) as (Hrun & _ & Hcounts).
  - intros n _. reflexivity.
  - vm_compute. reflexivity.
  - vm_compute. reflexivity.
  - vm_compute. reflexivity.
  - destruct Hcounts as (Ht & Hu & Ha).
    + vm_compute. reflexivity.
    + vm_compute. reflexivity.
    + apply (bool_decide_unpack _). vm_compute. reflexivity.
    + split_and!; [exact Hrun|exact Ht|exact Hu|exact Ha|].
      apply Habsent. vm_compute. reflexivity.
Defined.

(** ** Closing a session *)

Lemma close_session_run (env : Env) (session_id : string) (w : World) :
  close_session env session_id w =
    (Returns tt,
     if fault env (calls w) then advance 1 1 w
     else mkWorld (coll_update_one {[ "_id" := VStr session_id ]}
                     (closing env w) (sessions w)).1
                  (messages w) (S (ticks w)) (S (calls w))).
Proof.
  unfold_methods. destruct (fault env (calls w)); [done|].
  fold (closing env w). by destruct (coll_update_one _ _ (sessions w)).
Qed.

(** C7: [close_session] returns nothing in every case and never touches
    the messages; when no session has the id the sessions stay as they
    are; when one has, and the round trip goes through, that record
    gets status [closed] and the clock reading as [updated_at], keeps
    every other field, and the other records stay as they are. *)
Theorem close_session_spec (env : Env) (session_id : string) (w : World) :
  let run := close_session env session_id w in
  run.1 = Returns tt
  ∧ messages run.2 = messages w
  ∧ (coll_find_one {[ "_id" := VStr session_id ]} (sessions w) = None →
     sessions run.2 = sessions w)
  ∧ (∀ s : doc,
       fault env (calls w) = false →
       coll_find_one {[ "_id" := VStr session_id ]} (sessions w) = Some s →
       ∃ (before after : list doc) (s' : doc),
         sessions w = before ++ s :: after
         ∧ sessions run.2 = before ++ s' :: after
         ∧ coll_find_one {[ "_id" := VStr session_id ]} (sessions run.2) = Some s'
         ∧ s' !! "status" = Some (VStr "closed")
         ∧ s' !! "updated_at" = Some (VTime (utcnow env (ticks w)))
         ∧ (∀ k, k ≠ "status" → k ≠ "updated_at" → s' !! k = s !! k)).
Proof.
  intros run. subst run. rewrite close_session_run. cbn [fst snd].
  split_and!.
  - done.
  - by destruct (fault env (calls w)).
  - intros Hnone. destruct (fault env (calls w)); [done|].
    cbn [sessions]. by rewrite coll_update_one_None.
  - intros s Hf Hfind. rewrite Hf. cbn [sessions].
    destruct (coll_find_one_Some _ _ _ Hfind) as (before & after & Hw & Hm & Hb).
    exists before, after, (closing env w ∪ s).
    assert (Hkeep : ∀ k, k ≠ "status" → k ≠ "updated_at" →
                         (closing env w ∪ s) !! k = s !! k).
    { intros k H1 H2. apply lookup_union_r. unfold closing.
      by rewrite lookup_insert_ne, lookup_singleton_ne. }
    split_and!; [done| | | | |done].
    + rewrite Hw. by apply coll_update_one_split.
    + rewrite Hw, coll_update_one_split by done.
      apply coll_find_one_split; [done|].
      apply matches_singleton. rewrite Hkeep by done.
      by apply matches_singleton.
    + apply lookup_union_Some_l. unfold closing. apply lookup_insert_eq.
    + apply lookup_union_Some_l. unfold closing.
      rewrite lookup_insert_ne by done. apply lookup_singleton_eq.
Qed.

Lemma close_session_spec_witness :
  (close_session demo_env "s1" one_session).1 = Returns tt
  ∧ (∃ s' : doc,
       coll_find_one {[ "_id" := VStr "s1" ]}
         (sessions (close_session demo_env "s1" one_session).2) = Some s'
       ∧ s' !! "status" = Some (VStr "closed")
       ∧ s' !! "created_at" = Some (VTime 0))
  ∧ sessions (close_session demo_env "s2" one_session).2 = sessions one_session.
Proof.
  destruct (close_session_spec demo_env "s1" one_session) as (Hret & _ & _ & Hfound).
  destruct (close_session_spec demo_env "s2" one_session) as (_ & _ & Habsent & _).
  destruct (Hfound {[ "_id" := VStr "s1"; "created_at" := VTime 0;
                      "updated_at" := VTime 1000; "status" := VStr "active" ]})
    as (before & after & s' & _ & _ & Hfind' & Hstatus & _ & Hkeep).
  - reflexivity.
  - vm_compute. reflexivity.
  - split_and!; [exact Hret| |apply Habsent; vm_compute; reflexivity].
    exists s'. split_and!; [exact Hfind'|exact Hstatus|].
    rewrite Hkeep by discriminate. vm_compute. reflexivity.
Defined.

(** ** Failures stay inside the methods *)

Lemma create_session_find_fails (env : Env) (session_id : string) (w : World) :
  fault env (calls w) = true →
  create_session env session_id w = (Returns None, advance 2 1 w).
Proof. intros Hf. unfold_methods. by rewrite Hf. Qed.

Lemma create_session_insert_fails (env : Env) (session_id : string) (w : World) :
  fault env (calls w) = false →
  coll_find_one {[ "_id" := VStr session_id ]} (sessions w) = None →
  fault env (S (calls w)) = true →
  create_session env session_id w = (Returns None, advance 2 2 w).
Proof.
  intros Hf1 Hfind Hf2. unfold_methods. rewrite Hf1, Hfind.
  cbn [truthy]. reduce_world. by rewrite Hf2.
Qed.

Lemma create_session_faulted (env : Env) (session_id : string) (w : World) :
  faulted env w (create_session env session_id w).2 →
  (create_session env session_id w).1 = Returns None.
Proof.
  destruct (fault env (calls w)) eqn:Hf1.
  { by rewrite create_session_find_fails. }
  destruct (coll_find_one {[ "_id" := VStr session_id ]} (sessions w))
    as [s|] eqn:Hfind.
  { rewrite (create_session_present _ _ _ s) by done. cbn [fst snd].
    intros H. refute_faulted H. }
  destruct (fault env (S (calls w))) eqn:Hf2.
  { by rewrite create_session_insert_fails. }
  rewrite create_session_absent by done. cbn [fst snd].
  intros H. refute_faulted H.
Qed.

Lemma create_session_returns (env : Env) (session_id : string) (w : World) :
  ∃ r, (create_session env session_id w).1 = Returns r.
Proof.
  destruct (fault env (calls w)) eqn:Hf1.
  { rewrite create_session_find_fails by done. by eexists. }
  destruct (coll_find_one {[ "_id" := VStr session_id ]} (sessions w))
    as [s|] eqn:Hfind.
  { rewrite (create_session_present _ _ _ s) by done. by eexists. }
  destruct (fault env (S (calls w))) eqn:Hf2.
  { rewrite create_session_insert_fails by done. by eexists. }
  rewrite create_session_absent by done. by eexists.
Qed.

Lemma save_message_faulted (env : Env) (session_id role content : string)
    (w : World) :
  faulted env w (save_message env session_id role content w).2 →
  (save_message env session_id role content w).1 = Returns false.
Proof.
  destruct (fault env (calls w)) eqn:Hf1.
  { by rewrite save_message_insert_fails. }
  destruct (fault env (S (calls w))) eqn:Hf2.
  { by rewrite save_message_update_fails. }
  rewrite save_message_ok by done. cbn [fst snd].
  intros H. refute_faulted H.
Qed.

Lemma save_message_returns (env : Env) (session_id role content : string)
    (w : World) :
  ∃ r, (save_message env session_id role content w).1 = Returns r.
Proof.
  destruct (fault env (calls w)) eqn:Hf1.
  { rewrite save_message_insert_fails by done. by eexists. }
  destruct (fault env (S (calls w))) eqn:Hf2.
  { rewrite save_message_update_fails by done. by eexists. }
  rewrite save_message_ok by done. by eexists.
Qed.

Lemma history_entry_world (m : doc) (w : World) : (history_entry m w).2 = w.
Proof.
  unfold history_entry, getitem, bind, ret, raise.
  destruct (m !! "role"); [|done]. by destruct (m !! "content").
Qed.

Lemma for_append_world (l : list doc) (w : World) :
  (for_append history_entry l w).2 = w.
Proof.
  induction l as [|m l IH]; [done|].
  cbn [for_append]. unfold bind at 1.
  pose proof (history_entry_world m w) as Hm.
  destruct (history_entry m w) as [[e|x] w1]; cbn [snd] in Hm; subst w1; [|done].
  unfold bind at 1.
  destruct (for_append history_entry l w) as [[h|x] w1]; cbn [snd] in IH;
    by subst w1.
Qed.

(** [get_chat_history] always returns a list, after one round trip, and
    the empty list when that round trip fails. *)
Lemma get_chat_history_run (env : Env) (session_id : string) (limit : Z)
    (w : World) :
  ∃ h, get_chat_history env session_id limit w = (Returns h, advance 0 1 w)
       ∧ (fault env (calls w) = true → h = []).
Proof.
  unfold_methods. destruct (fault env (calls w)).
  { by exists []. }
  reduce_world.
  pose proof (for_append_world
    (coll_limit limit (coll_sort "timestamp"
       (coll_find {[ "session_id" := VStr session_id ]} (messages w))))
    (mkWorld (sessions w) (messages w) (ticks w) (S (calls w)))) as Hw.
  destruct (for_append _ _ _) as [[h|x] w1]; cbn [snd] in Hw; subst w1.
  - by exists h.
  - by exists [].
Qed.

Lemma get_chat_history_faulted (env : Env) (session_id : string) (limit : Z)
    (w : World) :
  faulted env w (get_chat_history env session_id limit w).2 →
  (get_chat_history env session_id limit w).1 = Returns [].
Proof.
  destruct (get_chat_history_run env session_id limit w) as (h & -> & Hh).
  cbn [fst snd]. intros H.
  destruct (fault env (calls w)) eqn:Hf; [by rewrite Hh|].
  refute_faulted H.
Qed.

Lemma get_session_faulted (env : Env) (session_id : string) (w : World) :
  faulted env w (get_session env session_id w).2 →
  (get_session env session_id w).1 = Returns None.
Proof.
  rewrite get_session_run. cbn [fst snd]. intros H.
  destruct (fault env (calls w)) eqn:Hf; [done|]. refute_faulted H.
Qed.

(** For arguments that can be printed: every method returns a value
    and never raises; whenever one of its round trips to the store fails
    the value is the sentinel ([None], the empty list, the empty mapping,
    [False]); [close_session] returns normally; [get_session] on an id no
    session has returns [None]. *)
Theorem failures_become_sentinels (env : Env) (session_id role content : string)
    (limit : Z) (w : World) :
  ((∃ r, (create_session env session_id w).1 = Returns r)
   ∧ (∃ r, (get_session env session_id w).1 = Returns r)
   ∧ (∃ r, (save_message env session_id role content w).1 = Returns r)
   ∧ (∃ r, (get_chat_history env session_id limit w).1 = Returns r)
   ∧ (∃ r, (get_session_stats env session_id w).1 = Returns r)
   ∧ (close_session env session_id w).1 = Returns tt)
  ∧ (faulted env w (create_session env session_id w).2 →
     (create_session env session_id w).1 = Returns None)
  ∧ (faulted env w (get_session env session_id w).2 →
     (get_session env session_id w).1 = Returns None)
  ∧ (faulted env w (get_chat_history env session_id limit w).2 →
     (get_chat_history env session_id limit w).1 = Returns [])
  ∧ (faulted env w (get_session_stats env session_id w).2 →
     (get_session_stats env session_id w).1 = Returns ∅)
  ∧ (faulted env w (save_message env session_id role content w).2 →
     (save_message env session_id role content w).1 = Returns false)
  ∧ (coll_find_one {[ "_id" := VStr session_id ]} (sessions w) = None →
     (get_session env session_id w).1 = Returns None).
Proof.
  split_and!.
  - apply create_session_returns.
  - rewrite get_session_run. by eexists.
  - apply save_message_returns.
  - destruct (get_chat_history_run env session_id limit w) as (h & -> & _).
    by eexists.
  - rewrite get_session_stats_run.
    repeat match goal with
           | |- context [if ?b then _ else _] => destruct b
           | |- context [match ?o with Some _ => _ | None => _ end] => destruct o
           end; by eexists.
  - by rewrite close_session_run.
  - apply create_session_faulted.
  - apply get_session_faulted.
  - apply get_chat_history_faulted.
  - apply get_session_stats_faulted.
  - apply save_message_faulted.
  - intros Hnone. rewrite get_session_run, Hnone. cbn [fst].
    by destruct (fault env (calls w)).
Qed.

Lemma failures_become_sentinels_witness :
  (create_session first_call_fails "s1" empty_world).1 = Returns None
  ∧ (get_session first_call_fails "s1" empty_world).1 = Returns None
  ∧ (get_chat_history first_call_fails "s1" 50 empty_world).1 = Returns []
  ∧ (get_session_stats first_call_fails "s1" empty_world).1 = Returns ∅
  ∧ (save_message first_call_fails "s1" "user" "hi" empty_world).1 = Returns false
  ∧ (close_session first_call_fails "s1" empty_world).1 = Returns tt
  ∧ (get_session demo_env "s1" empty_world).1 = Returns None.
Proof.
  destruct (failures_become_sentinels first_call_fails "s1" "user" "hi" 50
              empty_world) as ((_ & _ & _ & _ & _ & Hclose) & Hc & Hg & Hh & Hs & Hm & _).
  destruct (failures_become_sentinels demo_env "s1" "user" "hi" 50 empty_world)
    as (_ & _ & _ & _ & _ & _ & Habsent).
  split_and!;
    [apply Hc|apply Hg|apply Hh|apply Hs|apply Hm|exact Hclose|
     apply Habsent; reflexivity];
    (exists 0%nat; split; [vm_compute; lia|reflexivity]).
Defined.

(** *** The [print] calls in the handlers *)

Lemma print_refused (encodable : string → bool) (text : string) (w : World) :
  encodable text = false →
  Stdout.print encodable [text] w = (Raises UnicodeEncodeError, w).
Proof. intros H. unfold Stdout.print. cbn [forallb]. by rewrite H. Qed.

(** With printable arguments the methods with their [print] calls are
    the methods modelled without them. *)
Lemma get_session_printable (encodable : string → bool) (env : Env)
    (session_id : string) (w : World) :
  encodable session_id = true →
  Stdout.get_session encodable env session_id w = get_session env session_id w.
Proof.
  intros H. unfold Stdout.get_session, get_session, Stdout.print.
  cbn [forallb]. rewrite H. cbn [andb].
  unfold try_except, bind, ret, find_one, round_trip.
  destruct (fault env (calls w)); [done|].
  by destruct (truthy _).
Qed.

Lemma create_session_printable (encodable : string → bool) (env : Env)
    (session_id : string) (w : World) :
  encodable session_id = true →
  Stdout.create_session encodable env session_id w
  = create_session env session_id w.
Proof.
  intros H. unfold Stdout.create_session, create_session, Stdout.print.
  cbn [forallb]. rewrite H. cbn [andb].
  unfold try_except, bind, ret, find_one, insert_one, round_trip, datetime_utcnow.
  reduce_world.
  destruct (fault env (calls w)); [done|].
  destruct (truthy _); [done|]. reduce_world.
  destruct (fault env (S (calls w))); [done|].
  by destruct (coll_insert_one _ _) as [[i l]|e].
Qed.

Lemma save_message_printable (encodable : string → bool) (env : Env)
    (session_id role content : string) (w : World) :
  encodable session_id = true →
  encodable role = true →
  encodable (Stdout.preview content) = true →
  Stdout.save_message encodable env session_id role content w
  = save_message env session_id role content w.
Proof.
  intros H1 H2 H3. unfold Stdout.save_message, save_message, Stdout.print.
  cbn [forallb]. rewrite H1, H2, H3. cbn [andb].
  unfold try_except, bind, ret, insert_one, update_one, round_trip,
    datetime_utcnow.
  reduce_world.
  destruct (fault env (calls w)); [done|].
  destruct (coll_insert_one _ _) as [[i l]|e]; [|done]. reduce_world.
  destruct (fault env (S (calls w))); [done|].
  by destruct (coll_update_one _ _ _).
Qed.

Lemma get_session_stats_printable (encodable : string → bool) (env : Env)
    (session_id : string) (w : World) :
  encodable session_id = true →
  Stdout.get_session_stats encodable env session_id w
  = get_session_stats env session_id w.
Proof.
  intros H. unfold Stdout.get_session_stats, get_session_stats.
  unfold try_except, bind at 1 6. by rewrite get_session_printable.
Qed.

(** C4 (a defect of the code): the handlers of [get_session],
    [create_session] and [save_message] print the session id before
    they return the sentinel.  For an id that standard output cannot
    encode the [print] in the [try] block raises, the one in the handler
    raises again, and the call ends in [UnicodeEncodeError] instead of
    returning [None] or [False], on any store and so also for an id that
    was never created.  [get_session_stats] catches what its
    [get_session] call raises and returns the empty mapping. *)
Theorem print_in_handler_propagates (encodable : string → bool) (env : Env)
    (session_id role content : string) (w : World) :
  encodable session_id = false →
  Stdout.get_session encodable env session_id w = (Raises UnicodeEncodeError, w)
  ∧ Stdout.create_session encodable env session_id w
    = (Raises UnicodeEncodeError, w)
  ∧ Stdout.save_message encodable env session_id role content w
    = (Raises UnicodeEncodeError, w)
  ∧ Stdout.get_session_stats encodable env session_id w = (Returns ∅, w).
Proof.
  intros H.
  assert (Hget : Stdout.get_session encodable env session_id w
                 = (Raises UnicodeEncodeError, w)).
  { unfold Stdout.get_session, try_except, bind.
    by rewrite !(print_refused _ _ _ H). }
  split_and!.
  - exact Hget.
  - unfold Stdout.create_session, try_except, bind.
    by rewrite !(print_refused _ _ _ H).
  - unfold Stdout.save_message, try_except, bind, Stdout.print.
    cbn [forallb]. by rewrite H.
  - unfold Stdout.get_session_stats, try_except, bind. by rewrite Hget.
Qed.

(** [get_session] on the never-created id U+DC80, with standard output in
    UTF-8. *)
Lemma print_in_handler_propagates_witness :
  coll_find_one {[ "_id" := VStr Stdout.lone_surrogate ]} (sessions empty_world)
    = None
  ∧ Stdout.get_session Stdout.utf8 demo_env Stdout.lone_surrogate empty_world
    = (Raises UnicodeEncodeError, empty_world)
  ∧ Stdout.create_session Stdout.utf8 demo_env Stdout.lone_surrogate empty_world
    = (Raises UnicodeEncodeError, empty_world)
  ∧ Stdout.save_message Stdout.utf8 demo_env Stdout.lone_surrogate "user" "hi"
      empty_world
    = (Raises UnicodeEncodeError, empty_world)
  ∧ Stdout.get_session_stats Stdout.utf8 demo_env Stdout.lone_surrogate
      empty_world
    = (Returns ∅, empty_world).
Proof.
  split; [reflexivity|].
  apply (print_in_handler_propagates Stdout.utf8 demo_env Stdout.lone_surrogate
           "user" "hi" empty_world).
  reflexivity.
Defined.

(** ** The life cycle of a session *)

Lemma coll_find_one_app (q : doc) (l1 l2 : list doc) :
  coll_find_one q (l1 ++ l2)
  = match coll_find_one q l1 with
    | Some d => Some d
    | None => coll_find_one q l2
    end.
Proof.
  unfold coll_find_one, coll_find. rewrite List.filter_app.
  by destruct (List.filter (matches q) l1).
Qed.

Lemma coll_find_one_cons (q : doc) (d : doc) (l : list doc) :
  coll_find_one q (d :: l) = if matches q d then Some d else coll_find_one q l.
Proof. unfold coll_find_one, coll_find. cbn [List.filter]. by destruct (matches q d). Qed.

Lemma matches_id_union (v : value) (upd d : doc) :
  upd !! "_id" = None →
  matches {[ "_id" := v ]} (upd ∪ d) = matches {[ "_id" := v ]} d.
Proof.
  intros Hupd. apply eq_true_iff_eq. rewrite !matches_singleton.
  by rewrite lookup_union_r.
Qed.

(** Looking a record up by id after an [update_one] by id. *)
Lemma find_one_update_one (v v' : value) (upd : doc) (c : list doc) :
  upd !! "_id" = None →
  coll_find_one {[ "_id" := v' ]} (coll_update_one {[ "_id" := v ]} upd c).1
  = if decide (v = v')
    then (upd ∪.) <$> coll_find_one {[ "_id" := v' ]} c
    else coll_find_one {[ "_id" := v' ]} c.
Proof.
  intros Hupd. induction c as [|d c IH]; cbn [coll_update_one].
  - by destruct (decide (v = v')).
  - destruct (matches {[ "_id" := v ]} d) eqn:Hd; cbn [fst].
    + rewrite !coll_find_one_cons, matches_id_union by done.
      destruct (decide (v = v')) as [->|Hne].
      * by rewrite Hd.
      * destruct (matches {[ "_id" := v' ]} d) eqn:Hd'; [|done].
        apply matches_singleton in Hd, Hd'. congruence.
    + destruct (coll_update_one {[ "_id" := v ]} upd c) as [c' r].
      cbn [fst] in *. rewrite !coll_find_one_cons, IH.
      destruct (decide (v = v')) as [->|Hne].
      * by rewrite Hd.
      * by destruct (matches {[ "_id" := v' ]} d).
Qed.

Lemma exec_store_step (env : Env) (c : call) (w : World) :
  store_step env w (sessions (exec env c w)) (messages (exec env c w)).
Proof.
  destruct c as [sid|sid|sid role content|sid limit|sid|sid]; cbn [exec].
  - destruct (fault env (calls w)) eqn:Hf1.
    { rewrite create_session_find_fails by done. cbn [snd advance sessions messages]; apply step_none. }
    destruct (coll_find_one {[ "_id" := VStr sid ]} (sessions w)) as [s|] eqn:Hfind.
    { rewrite (create_session_present _ _ _ s) by done. cbn [snd advance sessions messages]; apply step_none. }
    destruct (fault env (S (calls w))) eqn:Hf2.
    { rewrite create_session_insert_fails by done. cbn [snd advance sessions messages]; apply step_none. }
    rewrite create_session_absent by done. cbn [snd advance sessions messages]. by apply step_create.
  - rewrite get_session_run. cbn [snd advance sessions messages]; apply step_none.
  - destruct (fault env (calls w)) eqn:Hf1.
    { rewrite save_message_insert_fails by done. cbn [snd advance sessions messages]; apply step_none. }
    destruct (fault env (S (calls w))) eqn:Hf2.
    { rewrite save_message_update_fails by done. cbn [snd advance sessions messages]; apply step_insert. }
    rewrite save_message_ok by done. cbn [snd advance sessions messages]; apply step_save.
  - destruct (get_chat_history_run env sid limit w) as (h & -> & _). cbn [snd advance sessions messages]; apply step_none.
  - rewrite get_session_stats_run.
    repeat match goal with
           | |- context [if ?b then _ else _] => destruct b
           | |- context [match ?o with Some _ => _ | None => _ end] => destruct o
           end; cbn [snd advance sessions messages]; apply step_none.
  - rewrite close_session_run. cbn [snd].
    destruct (fault env (calls w)); [cbn [snd advance sessions messages]; apply step_none|cbn [snd advance sessions messages]; apply step_close].
Qed.

Lemma status_phase_fresh (env : Env) (session_id : string) (w : World) :
  status_phase (fresh_session env session_id w) = Active.
Proof. reflexivity. Qed.

Lemma status_phase_touch (t : value) (s : doc) :
  status_phase ({[ "updated_at" := t ]} ∪ s) = status_phase s.
Proof.
  unfold status_phase. by rewrite lookup_union_r.
Qed.

Lemma status_phase_closing (env : Env) (w : World) (s : doc) :
  status_phase (closing env w ∪ s) = Closed.
Proof.
  unfold status_phase.
  by rewrite (lookup_union_Some_l _ _ _ (VStr "closed")).
Qed.

Lemma status_phase_exists (s : doc) : status_phase s ≠ Nonexistent.
Proof.
  unfold status_phase. destruct (s !! "status") as [[]|]; try done.
  by repeat case_bool_decide.
Qed.

Lemma store_step_phase (env : Env) (w : World) (ss ms : list doc)
    (session_id : string) :
  store_step env w ss ms →
  phase_in session_id (sessions w) ≠ Malformed →
  sm_step (phase_in session_id (sessions w)) (phase_in session_id ss).
Proof.
  intros Hstep Hwf. unfold phase_in in *.
  destruct Hstep as [|sid Hnone|sid role content|sid role content|sid].
  - constructor.
  - rewrite coll_find_one_app.
    destruct (coll_find_one {[ "_id" := VStr session_id ]} (sessions w))
      as [s|] eqn:Hfind; [constructor|].
    rewrite coll_find_one_cons.
    destruct (matches _ (fresh_session env sid w)); constructor.
  - constructor.
  - rewrite find_one_update_one by done.
    destruct (decide (VStr sid = VStr session_id)) as [_|_]; [|constructor].
    destruct (coll_find_one {[ "_id" := VStr session_id ]} (sessions w))
      as [s|]; cbn [fmap option_fmap option_map];
      [|constructor].
    rewrite status_phase_touch. constructor.
  - rewrite find_one_update_one by done.
    destruct (decide (VStr sid = VStr session_id)) as [_|_]; [|constructor].
    destruct (coll_find_one {[ "_id" := VStr session_id ]} (sessions w))
      as [s|]; cbn [fmap option_fmap option_map];
      [|constructor].
    rewrite status_phase_closing.
    pose proof (status_phase_exists s).
    destruct (status_phase s); try done; constructor.
Qed.

Lemma store_step_present (env : Env) (w : World) (ss ms : list doc) (v : value) :
  store_step env w ss ms →
  is_Some (coll_find_one {[ "_id" := v ]} (sessions w)) →
  is_Some (coll_find_one {[ "_id" := v ]} ss).
Proof.
  intros Hstep [s Hs].
  destruct Hstep as [|sid Hnone|sid role content|sid role content|sid].
  - by exists s.
  - rewrite coll_find_one_app, Hs. by exists s.
  - by exists s.
  - rewrite find_one_update_one, Hs by done.
    destruct (decide (VStr sid = v)); by eexists.
  - rewrite find_one_update_one, Hs by done.
    destruct (decide (VStr sid = v)); by eexists.
Qed.

Lemma store_step_grows (env : Env) (w : World) (ss ms : list doc) :
  store_step env w ss ms →
  (length (sessions w) ≤ length ss)%nat ∧ messages w `prefix_of` ms.
Proof.
  intros Hstep.
  destruct Hstep as [|sid Hnone|sid role content|sid role content|sid].
  - done.
  - rewrite length_app. split; [lia|done].
  - split; [done|by apply prefix_app_r].
  - rewrite coll_update_one_length. split; [done|by apply prefix_app_r].
  - by rewrite coll_update_one_length.
Qed.

Lemma sm_step_well_formed (p p' : phase) :
  sm_step p p' → p ≠ Malformed → p' ≠ Malformed.
Proof. by destruct 1. Qed.

Lemma sm_step_closed (p' : phase) : sm_step Closed p' → p' = Closed.
Proof. by inversion 1. Qed.

Lemma exec_step (env : Env) (c : call) (session_id : string) (w : World) :
  phase_of session_id w ≠ Malformed →
  sm_step (phase_of session_id w) (phase_of session_id (exec env c w)).
Proof.
  intros Hwf. unfold phase_of.
  eapply store_step_phase; [apply exec_store_step|done].
Qed.

Lemma exec_all_snoc (env : Env) (cs : list call) (c : call) (w : World) :
  exec_all env (cs ++ [c]) w = exec env c (exec_all env cs w).
Proof. unfold exec_all. by rewrite foldl_app. Qed.

Lemma exec_all_well_formed (env : Env) (cs : list call) (session_id : string)
    (w : World) :
  phase_of session_id w ≠ Malformed →
  phase_of session_id (exec_all env cs w) ≠ Malformed.
Proof.
  induction cs as [|c cs IH] using rev_ind; [done|].
  intros Hwf. rewrite exec_all_snoc.
  eapply sm_step_well_formed; [by apply exec_step, IH|by apply IH].
Qed.

(** Every message the methods store carries a role and a content. *)
Lemma exec_msg_wf (env : Env) (c : call) (w : World) :
  Forall msg_wf (messages w) → Forall msg_wf (messages (exec env c w)).
Proof.
  intros Hwf.
  assert (Hnew : ∀ sid role content,
            msg_wf (new_message env sid role content w)).
  { intros sid role content. split; by eexists. }
  destruct (exec_store_step env c w); try done;
    apply Forall_app; split; try done; by constructor.
Qed.

Lemma exec_all_msg_wf (env : Env) (cs : list call) :
  Forall msg_wf (messages (exec_all env cs empty_world)).
Proof.
  induction cs as [|c cs IH] using rev_ind; [constructor|].
  rewrite exec_all_snoc. by apply exec_msg_wf.
Qed.

(** C8: along every sequence of calls, from a store in which the session
    is absent, active or closed, each call moves the session along
    nonexistent → active → closed or leaves it where it is; a closed
    session stays closed; an id that is present stays present and the
    session collection never shrinks; the messages already stored stay,
    unchanged and in place, as a prefix of the message collection. *)
Theorem session_life_cycle (env : Env) (cs : list call) (session_id : string)
    (w : World) :
  phase_of session_id w ≠ Malformed →
  (∀ c, sm_step (phase_of session_id (exec_all env cs w))
                (phase_of session_id (exec env c (exec_all env cs w))))
  ∧ (phase_of session_id w = Closed →
     phase_of session_id (exec_all env cs w) = Closed)
  ∧ (∀ v, is_Some (coll_find_one {[ "_id" := v ]} (sessions w)) →
          is_Some (coll_find_one {[ "_id" := v ]} (sessions (exec_all env cs w))))
  ∧ (length (sessions w) ≤ length (sessions (exec_all env cs w)))%nat
  ∧ messages w `prefix_of` messages (exec_all env cs w).
Proof.
  intros Hwf. split.
  { intros c. by apply exec_step, exec_all_well_formed. }
  induction cs as [|c cs (IHc & IHp & IHl & IHm)] using rev_ind.
  { done. }
  rewrite exec_all_snoc.
  pose proof (exec_store_step env c (exec_all env cs w)) as Hstep.
  split_and!.
  - intros Hclosed. specialize (IHc Hclosed).
    pose proof (exec_step env c session_id (exec_all env cs w)) as Hsm.
    rewrite IHc in Hsm. apply sm_step_closed, Hsm. done.
  - intros v Hv. eapply store_step_present; [exact Hstep|by apply IHp].
  - apply store_step_grows in Hstep as [Hlen _]. lia.
  - apply store_step_grows in Hstep as [_ Hpre]. by etrans.
Qed.

Lemma session_life_cycle_witness :
  phase_of "s1" empty_world = Nonexistent
  ∧ phase_of "s1" (exec_all demo_env [CreateSession "s1"] empty_world) = Active
  ∧ sm_step
      (phase_of "s1"
         (exec_all demo_env [CreateSession "s1"; CloseSession "s1"] empty_world))
      (phase_of "s1"
         (exec demo_env (CreateSession "s1")
            (exec_all demo_env [CreateSession "s1"; CloseSession "s1"] empty_world)))
  ∧ phase_of "s1"
      (exec_all demo_env [CreateSession "s1"; CloseSession "s1"] empty_world)
    = Closed.
Proof.
  destruct (session_life_cycle demo_env [CreateSession "s1"; CloseSession "s1"]
              "s1" empty_world) as (Hstep & _).
  - vm_compute. discriminate.
  - split_and!; [vm_compute; reflexivity|vm_compute; reflexivity|apply Hstep|
                 vm_compute; reflexivity].
Defined.

(** ** The singleton *)

Lemma db_instance_get_database (reachable : bool) (p : Singleton.Process) :
  Singleton._db_instance (Singleton.get_database reachable p).2
  = Singleton._db_instance p.
Proof.
  unfold Singleton.get_database, Singleton.new_MongoDB.
  destruct (Singleton._database_instance p); [done|]. by destruct reachable.
Qed.

(** Nothing ever assigns [_db_instance]. *)
Lemma db_instance_never_set (cs : list Singleton.gcall) :
  Singleton._db_instance (Singleton.run_all cs Singleton.initial) = None.
Proof.
  induction cs as [|c cs IH] using rev_ind; [done|].
  unfold Singleton.run_all in *. rewrite foldl_app. cbn [foldl].
  destruct c as [reachable|]; cbn [Singleton.run].
  - by rewrite db_instance_get_database.
  - unfold Singleton.close_database. by rewrite IH.
Qed.

(** C9: once [get_database] has created the instance, in a process where
    [_db_instance] still has its initial value [None], [close_database]
    changes nothing: the instance stays in [_database_instance], its
    connection stays open, and the next [get_database] returns the same
    instance without creating one. *)
Theorem close_database_is_noop (p : Singleton.Process) :
  Singleton._database_instance p = None →
  Singleton._db_instance p = None →
  ∃ (a : nat) (p1 : Singleton.Process),
    Singleton.get_database true p = (Returns a, p1)
    ∧ Singleton._database_instance p1 = Some a
    ∧ Singleton.connection_open a p1 = true
    ∧ Singleton.close_database p1 = p1
    ∧ Singleton.connection_open a (Singleton.close_database p1) = true
    ∧ (∀ reachable,
         Singleton.get_database reachable (Singleton.close_database p1)
         = (Returns a, p1)).
Proof.
  intros Hdb Hnone.
  unfold Singleton.get_database at 1. rewrite Hdb.
  unfold Singleton.new_MongoDB. cbn [Singleton.heap Singleton._db_instance].
  eexists _, _. split; [reflexivity|].
  assert (Hopen : Singleton.connection_open (length (Singleton.heap p))
            (Singleton.mkProcess
               (Singleton.heap p ++ [Singleton.mkMongoDB (Some (Singleton.mkClient true))])
               (Some (length (Singleton.heap p))) (Singleton._db_instance p))
          = true).
  { unfold Singleton.connection_open. cbn [Singleton.heap].
    by rewrite list_lookup_middle. }
  assert (Hclose : Singleton.close_database
            (Singleton.mkProcess
               (Singleton.heap p ++ [Singleton.mkMongoDB (Some (Singleton.mkClient true))])
               (Some (length (Singleton.heap p))) (Singleton._db_instance p))
          = Singleton.mkProcess
               (Singleton.heap p ++ [Singleton.mkMongoDB (Some (Singleton.mkClient true))])
               (Some (length (Singleton.heap p))) (Singleton._db_instance p)).
  { unfold Singleton.close_database. cbn [Singleton._db_instance]. by rewrite Hnone. }
  split_and!; [done|exact Hopen|exact Hclose|by rewrite Hclose|].
  intros reachable. by rewrite Hclose.
Qed.

Lemma close_database_is_noop_witness :
  ∃ (a : nat) (p1 : Singleton.Process),
    Singleton.get_database true Singleton.initial = (Returns a, p1)
    ∧ Singleton._database_instance p1 = Some a
    ∧ Singleton.connection_open a p1 = true
    ∧ Singleton.close_database p1 = p1
    ∧ Singleton.connection_open a (Singleton.close_database p1) = true
    ∧ (∀ reachable,
         Singleton.get_database reachable (Singleton.close_database p1)
         = (Returns a, p1)).
Proof.
  apply (close_database_is_noop Singleton.initial); reflexivity.
Defined.

(** ** Stores reached from the empty one

    The side conditions of the statements above (messages carrying role
    and content, session records carrying their timestamps and a status
    of [active] or [closed]) hold in every store the methods build. *)

Lemma coll_update_one_Forall (P : doc → Prop) (q upd : doc) (c : list doc) :
  (∀ d, P d → P (upd ∪ d)) →
  Forall P c → Forall P (coll_update_one q upd c).1.
Proof.
  intros Hupd. induction 1 as [|d c Hd Hc IH]; cbn [coll_update_one].
  - constructor.
  - destruct (matches q d); cbn [fst].
    + constructor; [by apply Hupd|done].
    + destruct (coll_update_one q upd c). cbn [fst] in *. by constructor.
Qed.

Lemma session_wf_union (upd s : doc) : session_wf s → session_wf (upd ∪ s).
Proof.
  intros [Hc Hu]. split; apply lookup_union_is_Some; by right.
Qed.

Lemma exec_session_wf (env : Env) (c : call) (w : World) :
  Forall session_wf (sessions w) → Forall session_wf (sessions (exec env c w)).
Proof.
  intros Hwf.
  destruct (exec_store_step env c w); try done.
  - apply Forall_app. split; [done|]. constructor; [|constructor].
    split; by eexists.
  - apply coll_update_one_Forall; [apply session_wf_union|done].
  - apply coll_update_one_Forall; [apply session_wf_union|done].
Qed.

Lemma exec_all_session_wf (env : Env) (cs : list call) :
  Forall session_wf (sessions (exec_all env cs empty_world)).
Proof.
  induction cs as [|c cs IH] using rev_ind; [constructor|].
  rewrite exec_all_snoc. by apply exec_session_wf.
Qed.

Lemma exec_all_phase (env : Env) (cs : list call) (session_id : string) :
  phase_of session_id (exec_all env cs empty_world) ≠ Malformed.
Proof. by apply exec_all_well_formed. Qed.

(** * Further properties of the methods *)

Lemma exec_world_step (env : Env) (c : call) (w : World) :
  world_step env w (exec env c w).
Proof.
  destruct c as [sid|sid|sid role content|sid limit|sid|sid]; cbn [exec].
  - destruct (fault env (calls w)) eqn:Hf1.
    { rewrite create_session_find_fails by done. apply wstep_none. }
    destruct (coll_find_one {[ "_id" := VStr sid ]} (sessions w)) as [s|] eqn:Hfind.
    { rewrite (create_session_present _ _ _ s) by done. apply (wstep_none _ _ 2 1). }
    destruct (fault env (S (calls w))) eqn:Hf2.
    { rewrite create_session_insert_fails by done. apply wstep_none. }
    rewrite create_session_absent by done. by apply wstep_create.
  - rewrite get_session_run. apply wstep_none.
  - destruct (fault env (calls w)) eqn:Hf1.
    { rewrite save_message_insert_fails by done. apply (wstep_none _ _ 1 1). }
    destruct (fault env (S (calls w))) eqn:Hf2.
    { rewrite save_message_update_fails by done. apply wstep_insert. }
    rewrite save_message_ok by done. apply wstep_save.
  - destruct (get_chat_history_run env sid limit w) as (h & -> & _). apply wstep_none.
  - rewrite get_session_stats_run.
    repeat match goal with
           | |- context [if ?b then _ else _] => destruct b
           | |- context [match ?o with Some _ => _ | None => _ end] => destruct o
           end; apply wstep_none.
  - rewrite close_session_run. cbn [snd].
    destruct (fault env (calls w)); [apply wstep_none|apply wstep_close].
Qed.

(** X1: the three reading methods change neither collection, whether
    their round trips fail or not. *)
Theorem reading_changes_nothing (env : Env) (session_id : string) (limit : Z)
    (w : World) :
  (sessions (get_session env session_id w).2 = sessions w
   ∧ messages (get_session env session_id w).2 = messages w)
  ∧ (sessions (get_chat_history env session_id limit w).2 = sessions w
     ∧ messages (get_chat_history env session_id limit w).2 = messages w)
  ∧ (sessions (get_session_stats env session_id w).2 = sessions w
     ∧ messages (get_session_stats env session_id w).2 = messages w).
Proof.
  split_and!.
  - by rewrite get_session_run.
  - by rewrite get_session_run.
  - by destruct (get_chat_history_run env session_id limit w) as (h & -> & _).
  - by destruct (get_chat_history_run env session_id limit w) as (h & -> & _).
  - rewrite get_session_stats_run.
    repeat match goal with
           | |- context [if ?b then _ else _] => destruct b
           | |- context [match ?o with Some _ => _ | None => _ end] => destruct o
           end; done.
  - rewrite get_session_stats_run.
    repeat match goal with
           | |- context [if ?b then _ else _] => destruct b
           | |- context [match ?o with Some _ => _ | None => _ end] => destruct o
           end; done.
Qed.

(** X2: after a [create_session] whose round trips go through,
    [get_session] with the same id returns the stored record of that
    session, which carries the id: for an id that was present it is the
    very record [create_session] returned, for a new id it is the record
    [create_session] returned with its dates cut to the millisecond. *)
Theorem get_session_after_create (env : Env) (session_id : string) (w : World) :
  (∀ n, (calls w ≤ n < 3 + calls w)%nat → fault env n = false) →
  ∃ d d' : doc,
    (create_session env session_id w).1 = Returns (Some d)
    ∧ (get_session env session_id (create_session env session_id w).2).1
      = Returns (Some d')
    ∧ d !! "_id" = Some (VStr session_id)
    ∧ d' !! "_id" = Some (VStr session_id)
    ∧ (coll_find_one {[ "_id" := VStr session_id ]} (sessions w) = None →
       d' = bson_doc d)
    ∧ (is_Some (coll_find_one {[ "_id" := VStr session_id ]} (sessions w)) →
       d' = d).
Proof.
  intros Hf.
  destruct (coll_find_one {[ "_id" := VStr session_id ]} (sessions w))
    as [existing|] eqn:Hfind.
  - rewrite (create_session_present _ _ _ existing);
      [|apply Hf; lia|exact Hfind].
    rewrite get_session_run. cbn [fst snd calls sessions].
    rewrite Hf by lia. rewrite Hfind.
    assert (Hid : existing !! "_id" = Some (VStr session_id)).
    { apply coll_find_one_elem in Hfind as [_ Hm]. by apply matches_singleton. }
    exists existing, existing.
    split_and!; [done|done|done|done|intros [=]|done].
  - rewrite create_session_absent;
      [|apply Hf; lia|apply Hf; lia|exact Hfind].
    rewrite get_session_run. cbn [fst snd calls sessions].
    rewrite Hf by lia.
    assert (Hm : matches {[ "_id" := VStr session_id ]}
                   (fresh_session env session_id w) = true).
    { by apply matches_singleton. }
    rewrite (find_one_appended _ _ _ Hfind Hm).
    exists (session_data env session_id w), (fresh_session env session_id w).
    split_and!; [done|done|reflexivity|reflexivity| |].
    + intros _. symmetry. apply bson_session_data.
    + by intros [? [=]].
Qed.

Lemma get_session_after_create_witness :
  ∃ d d' : doc,
    (create_session demo_env "s7" demo_world).1 = Returns (Some d)
    ∧ (get_session demo_env "s7" (create_session demo_env "s7" demo_world).2).1
      = Returns (Some d')
    ∧ d !! "_id" = Some (VStr "s7")
    ∧ d' !! "_id" = Some (VStr "s7")
    ∧ d' = bson_doc d.
Proof.
  destruct (get_session_after_create demo_env "s7" demo_world)
    as (d & d' & Hc & Hg & Hid & Hid' & Hnew & _).
  - intros n _. reflexivity.
  - exists d, d'. split_and!; [exact Hc|exact Hg|exact Hid|exact Hid'|].
    apply Hnew. vm_compute. reflexivity.
Defined.

(** ** No two sessions with one id *)

Lemma ids_update_one (q upd : doc) (c : list doc) :
  upd !! "_id" = None → ids (coll_update_one q upd c).1 = ids c.
Proof.
  intros Hupd. unfold ids. induction c as [|d c IH]; [done|].
  cbn [coll_update_one]. destruct (matches q d); cbn [fst map].
  - by rewrite lookup_union_r.
  - destruct (coll_update_one q upd c). cbn [fst map] in *. by rewrite IH.
Qed.

Lemma find_one_None_ids (v : value) (c : list doc) :
  coll_find_one {[ "_id" := v ]} c = None → Some v ∉ ids c.
Proof.
  rewrite coll_find_one_None. unfold ids.
  induction 1 as [|d c Hd _ IH]; cbn [map].
  - apply not_elem_of_nil.
  - apply not_elem_of_cons. split; [|done].
    apply matches_singleton_false in Hd. congruence.
Qed.

Lemma world_step_ids (env : Env) (w w' : World) :
  world_step env w w' → NoDup (ids (sessions w)) → NoDup (ids (sessions w')).
Proof.
  intros Hstep Hnd.
  destruct Hstep as [t c|sid Hnone|sid role content|sid role content|sid];
    cbn [sessions advance].
  - done.
  - unfold ids. rewrite map_app. cbn [map]. apply NoDup_app.
    split_and!; [done| |apply NoDup_singleton].
    intros x Hx Hx'. apply list_elem_of_singleton in Hx'. subst x.
    apply find_one_None_ids in Hnone. apply Hnone.
    by replace (Some (VStr sid)) with (fresh_session env sid w !! "_id").
  - done.
  - by rewrite ids_update_one.
  - by rewrite ids_update_one.
Qed.

(** X3: the methods never give two session records the same [_id]: if
    the ids in the sessions collection are pairwise distinct they are so
    after every sequence of calls, whatever fails on the way. *)
Theorem session_ids_stay_unique (env : Env) (cs : list call) (w : World) :
  NoDup (ids (sessions w)) → NoDup (ids (sessions (exec_all env cs w))).
Proof.
  intros Hnd. induction cs as [|c cs IH] using rev_ind; [done|].
  rewrite exec_all_snoc.
  eapply world_step_ids; [apply exec_world_step|done].
Qed.

Lemma session_ids_stay_unique_witness :
  NoDup (ids (sessions
    (exec_all demo_env
       [CreateSession "s1"; CreateSession "s1"; CreateSession "s2";
        CloseSession "s1"; CreateSession "s1"] empty_world))).
Proof.
  apply (session_ids_stay_unique demo_env _ empty_world).
  apply NoDup_nil_2.
Defined.

(** ** What a saved message changes *)

(** X4: a [save_message] whose two round trips go through refreshes
    [updated_at] of the session with that id, whatever its status, and
    changes no other field of it (a closed session stays closed and still
    takes the message); the records found under other ids are the same
    as before. *)
Theorem save_message_refreshes_session (env : Env)
    (session_id role content : string) (w : World) (s : doc) :
  fault env (calls w) = false →
  fault env (S (calls w)) = false →
  coll_find_one {[ "_id" := VStr session_id ]} (sessions w) = Some s →
  let run := save_message env session_id role content w in
  run.1 = Returns true
  ∧ (∃ s' : doc,
       coll_find_one {[ "_id" := VStr session_id ]} (sessions run.2) = Some s'
       ∧ s' !! "updated_at" = Some (VTime (utcnow env (S (ticks w))))
       ∧ (∀ k, k ≠ "updated_at" → s' !! k = s !! k))
  ∧ (∀ other : string,
       other ≠ session_id →
       coll_find_one {[ "_id" := VStr other ]} (sessions run.2)
       = coll_find_one {[ "_id" := VStr other ]} (sessions w)).
Proof.
  intros Hf1 Hf2 Hfind run. subst run.
  rewrite save_message_ok by done. cbn [fst snd sessions].
  split_and!; [done| |].
  - exists ({[ "updated_at" := VTime (utcnow env (S (ticks w))) ]} ∪ s).
    split_and!.
    + rewrite find_one_update_one by done.
      rewrite decide_True by done. by rewrite Hfind.
    + apply lookup_union_Some_l, lookup_singleton_eq.
    + intros k Hk. apply lookup_union_r. by apply lookup_singleton_ne.
  - intros other Hne. rewrite find_one_update_one by done.
    rewrite decide_False; [done|]. intros [= ->]. done.
Qed.

Lemma save_message_refreshes_session_witness :
  let run := save_message demo_env "s1" "user" "again"
               (close_session demo_env "s1" one_session).2 in
  run.1 = Returns true
  ∧ (∃ s' : doc,
       coll_find_one {[ "_id" := VStr "s1" ]} (sessions run.2) = Some s'
       ∧ s' !! "updated_at" = Some (VTime 4000)
       ∧ s' !! "status" = Some (VStr "closed")).
Proof.
  destruct (save_message_refreshes_session demo_env "s1" "user" "again"
              (close_session demo_env "s1" one_session).2
              {[ "_id" := VStr "s1"; "created_at" := VTime 0;
                 "updated_at" := VTime 2000; "status" := VStr "closed" ]})
    as (Hret & (s' & Hfind & Hupd & Hkeep) & _).
  - reflexivity.
  - reflexivity.
  - vm_compute. reflexivity.
  - split; [exact Hret|]. exists s'. split_and!; [exact Hfind|exact Hupd|].
    rewrite Hkeep by discriminate. vm_compute. reflexivity.
Defined.

Lemma matches_new_message (env : Env) (session_id role content other : string)
    (w : World) :
  matches {[ "session_id" := VStr other ]}
          (new_message env session_id role content w)
  = bool_decide (session_id = other).
Proof.
  apply eq_true_iff_eq. rewrite matches_singleton, bool_decide_eq_true.
  unfold new_message. rewrite lookup_insert_ne, lookup_insert_eq by done.
  split; [by intros [= ->]|by intros ->].
Qed.

Lemma coll_find_app (q : doc) (l1 l2 : list doc) :
  coll_find q (l1 ++ l2) = coll_find q l1 ++ coll_find q l2.
Proof. apply List.filter_app. Qed.

Lemma session_messages_save (env : Env) (session_id role content other : string)
    (w : World) :
  coll_find {[ "session_id" := VStr other ]}
    (messages w ++ [new_message env session_id role content w])
  = session_messages other w
    ++ (if bool_decide (session_id = other)
        then [new_message env session_id role content w] else []).
Proof.
  rewrite coll_find_app. unfold session_messages. f_equal.
  unfold coll_find. cbn [List.filter]. rewrite matches_new_message.
  by destruct (bool_decide (session_id = other)).
Qed.

(** X5: nothing ties a message to an existing session.  [save_message]
    under an id no session has returns [True] and stores the message
    without creating a session; afterwards [get_chat_history] returns a
    non-empty history for that id while [get_session_stats] returns the
    empty mapping. *)
Theorem save_message_without_session (env : Env)
    (session_id role content : string) (w : World) :
  (∀ n, (calls w ≤ n < 3 + calls w)%nat → fault env n = false) →
  Forall msg_wf (messages w) →
  coll_find_one {[ "_id" := VStr session_id ]} (sessions w) = None →
  let run := save_message env session_id role content w in
  run.1 = Returns true
  ∧ sessions run.2 = sessions w
  ∧ (∃ h : list doc,
       (get_chat_history env session_id 0 run.2).1 = Returns h
       ∧ ({[ "role" := VStr role; "content" := VStr content ]} : doc) ∈ h)
  ∧ (get_session_stats env session_id run.2).1 = Returns ∅.
Proof.
  intros Hf Hwf Hnone run. subst run.
  rewrite save_message_ok by (apply Hf; lia). cbn [fst snd].
  rewrite coll_update_one_None by done. cbn [fst].
  set (w1 := mkWorld (sessions w)
                     (messages w ++ [new_message env session_id role content w])
                     (S (S (ticks w))) (S (S (calls w)))).
  assert (Hnew : msg_wf (new_message env session_id role content w)).
  { split; by eexists. }
  destruct (get_chat_history_ok env session_id 0 w1) as (h & Hrun & Hh).
  { apply Hf. cbn [calls w1]. lia. }
  { apply Forall_app. split; [done|by constructor]. }
  split_and!; [done|done| |].
  - exists h. split; [by rewrite Hrun|].
    assert (Hin : new_message env session_id role content w
                  ∈ selected session_id 0 w1).
    { unfold selected, coll_limit. cbn [Z.eqb].
      rewrite coll_sort_perm. cbn [messages w1].
      rewrite session_messages_save, bool_decide_eq_true_2 by done.
      apply elem_of_app. right. apply list_elem_of_singleton. done. }
    apply list_elem_of_lookup in Hin as [i Hi].
    destruct (Forall2_lookup_l _ _ _ _ _ Hh Hi) as (e & He & Hentry).
    destruct Hentry as (r & c & Hr & Hc & ->).
    unfold new_message in Hr, Hc.
    rewrite lookup_insert_ne in Hr by done.
    rewrite lookup_insert_ne in Hc by done.
    rewrite lookup_insert_ne, lookup_insert_eq in Hr by done.
    rewrite !lookup_insert_ne, lookup_insert_eq in Hc by done.
    injection Hr as <-. injection Hc as <-.
    apply list_elem_of_lookup. by exists i.
  - rewrite get_session_stats_run. cbn [sessions w1]. rewrite Hnone.
    by destruct (fault env (calls w1)).
Qed.

Lemma save_message_without_session_witness :
  let run := save_message demo_env "ghost" "user" "anyone" demo_world in
  run.1 = Returns true
  ∧ sessions run.2 = sessions demo_world
  ∧ (∃ h : list doc,
       (get_chat_history demo_env "ghost" 0 run.2).1 = Returns h
       ∧ ({[ "role" := VStr "user"; "content" := VStr "anyone" ]} : doc) ∈ h)
  ∧ (get_session_stats demo_env "ghost" run.2).1 = Returns ∅.
Proof.
  apply (save_message_without_session demo_env "ghost" "user" "anyone" demo_world).
  - intros n _. reflexivity.
  - apply (bool_decide_unpack _). vm_compute. reflexivity.
  - vm_compute. reflexivity.
Defined.

Lemma save_message_messages (env : Env) (session_id role content : string)
    (w : World) :
  fault env (calls w) = false →
  messages (save_message env session_id role content w).2
  = messages w ++ [new_message env session_id role content w]
  ∧ calls (save_message env session_id role content w).2 = S (S (calls w)).
Proof.
  intros Hf1. destruct (fault env (S (calls w))) eqn:Hf2.
  - by rewrite save_message_update_fails.
  - by rewrite save_message_ok.
Qed.

(** X6: a [save_message] whose insert goes through adds exactly one
    message to its own session, at the end, and leaves the messages and
    the history of every other session as they were; nothing detects a
    repeated message, so saving the same role and content twice stores
    two records. *)
Theorem save_message_adds_one (env : Env) (session_id role content : string)
    (w : World) :
  fault env (calls w) = false →
  let w1 := (save_message env session_id role content w).2 in
  session_messages session_id w1
  = session_messages session_id w ++ [new_message env session_id role content w]
  ∧ (∀ other limit,
       other ≠ session_id →
       session_messages other w1 = session_messages other w
       ∧ selected other limit w1 = selected other limit w)
  ∧ (fault env (S (S (calls w))) = false →
     length (session_messages session_id
               (save_message env session_id role content w1).2)
     = S (S (length (session_messages session_id w)))).
Proof.
  intros Hf w1.
  destruct (save_message_messages env session_id role content w Hf)
    as [Hmsgs Hcalls].
  fold w1 in Hmsgs, Hcalls.
  assert (Hown : session_messages session_id w1
    = session_messages session_id w
      ++ [new_message env session_id role content w]).
  { unfold session_messages at 1. rewrite Hmsgs, session_messages_save.
    by rewrite bool_decide_eq_true_2. }
  assert (Hother : ∀ other, other ≠ session_id →
    session_messages other w1 = session_messages other w).
  { intros other Hne. unfold session_messages at 1.
    rewrite Hmsgs, session_messages_save.
    rewrite bool_decide_eq_false_2 by done. apply app_nil_r. }
  split_and!; [exact Hown| |].
  - intros other limit Hne. split; [by apply Hother|].
    unfold selected. fold (session_messages other w1).
    fold (session_messages other w). by rewrite Hother.
  - intros Hf'.
    destruct (save_message_messages env session_id role content w1) as [Hmsgs' _].
    { by rewrite Hcalls. }
    unfold session_messages at 1. rewrite Hmsgs', session_messages_save.
    rewrite bool_decide_eq_true_2 by done.
    fold (session_messages session_id w1).
    rewrite Hown, !length_app. cbn [length]. lia.
Qed.

Lemma save_message_adds_one_witness :
  let w1 := (save_message demo_env "s1" "user" "hi" demo_world).2 in
  session_messages "s1" w1
  = session_messages "s1" demo_world
    ++ [new_message demo_env "s1" "user" "hi" demo_world]
  ∧ (∀ other limit,
       other ≠ "s1" →
       session_messages other w1 = session_messages other demo_world
       ∧ selected other limit w1 = selected other limit demo_world)
  ∧ (fault demo_env (S (S (calls demo_world))) = false →
     length (session_messages "s1" (save_message demo_env "s1" "user" "hi" w1).2)
     = S (S (length (session_messages "s1" demo_world)))).
Proof.
  apply (save_message_adds_one demo_env "s1" "user" "hi" demo_world).
  reflexivity.
Defined.

(** ** Records that lack a field *)

Lemma history_entry_broken (m : doc) (w : World) :
  msg_broken m → ∃ e, history_entry m w = (Raises e, w).
Proof.
  unfold history_entry, getitem, bind, ret, raise. intros [Hr|Hc].
  - rewrite Hr. by eexists.
  - rewrite Hc. destruct (m !! "role"); by eexists.
Qed.

Lemma msg_wf_or_broken (m : doc) : msg_wf m ∨ msg_broken m.
Proof.
  unfold msg_wf, msg_broken.
  destruct (m !! "role"), (m !! "content"); auto.
Qed.

Lemma for_append_broken (l : list doc) (w : World) :
  Exists msg_broken l →
  ∃ e, for_append history_entry l w = (Raises e, w).
Proof.
  induction l as [|m l IH]; intros Hex; [by apply Exists_nil in Hex|].
  cbn [for_append]. unfold bind at 1.
  destruct (msg_wf_or_broken m) as [Hwf|Hbroken].
  - assert (Hl : Exists msg_broken l).
    { apply Exists_cons in Hex as [H|H]; [|done].
      destruct Hwf as [[? Hr] [? Hc]]. destruct H; congruence. }
    destruct (history_entry_wf m w Hwf) as (e & -> & _).
    destruct (IH Hl) as (x & Hx). unfold bind at 1. rewrite Hx. by exists x.
  - destruct (history_entry_broken m w Hbroken) as (x & ->). by exists x.
Qed.

(** X7: one stored message without a role or a content hides the whole
    history: when such a message is among those read, the [KeyError] is
    swallowed and [get_chat_history] returns the empty list, also for
    the well-formed messages read before it. *)
Theorem get_chat_history_broken_message (env : Env) (session_id : string)
    (limit : Z) (w : World) :
  fault env (calls w) = false →
  Exists msg_broken (selected session_id limit w) →
  (get_chat_history env session_id limit w).1 = Returns [].
Proof.
  intros Hf Hex.
  destruct (for_append_broken _
              (mkWorld (sessions w) (messages w) (ticks w) (S (calls w))) Hex)
    as (e & He).
  unfold_methods. rewrite Hf. reduce_world.
  unfold selected in He. by rewrite He.
Qed.

Lemma get_chat_history_broken_message_witness :
  (get_chat_history demo_env "s1" 50 broken_message_world).1 = Returns []
  ∧ length (session_messages "s1" broken_message_world) = 2%nat.
Proof.
  split; [|vm_compute; reflexivity].
  apply (get_chat_history_broken_message demo_env "s1" 50 broken_message_world).
  - reflexivity.
  - apply (bool_decide_unpack _). vm_compute. reflexivity.
Defined.

(** ** Statistics *)





(** X9: a session record that lacks [created_at] or [updated_at] makes
    [get_session_stats] return the empty mapping, as if the session did
    not exist: the [KeyError] is swallowed. *)
Theorem get_session_stats_missing_timestamp (env : Env) (session_id : string)
    (w : World) (s : doc) :
  coll_find_one {[ "_id" := VStr session_id ]} (sessions w) = Some s →
  s !! "created_at" = None ∨ s !! "updated_at" = None →
  (get_session_stats env session_id w).1 = Returns ∅.
Proof.
  intros Hfind Hmissing. rewrite get_session_stats_run, Hfind.
  destruct (fault env (calls w)); [done|].
  destruct (fault env (S (calls w))); [done|].
  destruct (fault env (S (S (calls w)))); [done|].
  destruct (fault env (S (S (S (calls w))))); [done|].
  destruct Hmissing as [-> | ->]; [done|]. by destruct (s !! "created_at").
Qed.

Lemma get_session_stats_missing_timestamp_witness :
  (get_session demo_env "s1" bare_session_world).1
    = Returns (Some {[ "_id" := VStr "s1"; "status" := VStr "active" ]})
  ∧ (get_session_stats demo_env "s1" bare_session_world).1 = Returns ∅.
Proof.
  split; [vm_compute; reflexivity|].
  apply (get_session_stats_missing_timestamp demo_env "s1" bare_session_world
           {[ "_id" := VStr "s1"; "status" := VStr "active" ]}).
  - vm_compute. reflexivity.
  - left. vm_compute. reflexivity.
Defined.

(** ** Closing again *)

(** X10: closing a session a second time only moves [updated_at] on:
    after two [close_session] calls whose round trips go through, the
    record has status [closed], the second clock reading as
    [updated_at], and in every other field the value it had after the
    first call. *)
Theorem close_session_twice (env : Env) (session_id : string) (w : World)
    (s : doc) :
  fault env (calls w) = false →
  fault env (S (calls w)) = false →
  coll_find_one {[ "_id" := VStr session_id ]} (sessions w) = Some s →
  let w1 := (close_session env session_id w).2 in
  let w2 := (close_session env session_id w1).2 in
  ∃ s1 s2 : doc,
    coll_find_one {[ "_id" := VStr session_id ]} (sessions w1) = Some s1
    ∧ coll_find_one {[ "_id" := VStr session_id ]} (sessions w2) = Some s2
    ∧ s2 !! "status" = Some (VStr "closed")
    ∧ s2 !! "updated_at" = Some (VTime (utcnow env (S (ticks w))))
    ∧ (∀ k, k ≠ "updated_at" → s2 !! k = s1 !! k)
    ∧ length (sessions w2) = length (sessions w).
Proof.
  intros Hf1 Hf2 Hfind w1 w2. subst w1 w2.
  rewrite (close_session_run env session_id w), Hf1. cbn [snd].
  rewrite close_session_run. cbn [snd calls sessions ticks]. rewrite Hf2.
  cbn [sessions].
  set (w1 := mkWorld _ (messages w) (S (ticks w)) (S (calls w))).
  exists (closing env w ∪ s), (closing env w1 ∪ (closing env w ∪ s)).
  assert (H1 : coll_find_one {[ "_id" := VStr session_id ]}
            (coll_update_one {[ "_id" := VStr session_id ]} (closing env w)
               (sessions w)).1 = Some (closing env w ∪ s)).
  { rewrite find_one_update_one by done.
    rewrite decide_True by done. by rewrite Hfind. }
  split_and!.
  - exact H1.
  - rewrite find_one_update_one by done.
    rewrite decide_True by done. by rewrite H1.
  - apply lookup_union_Some_l. unfold closing. apply lookup_insert_eq.
  - apply lookup_union_Some_l. unfold closing.
    rewrite lookup_insert_ne by done. apply lookup_singleton_eq.
  - intros k Hk. destruct (decide (k = "status")) as [->|Hk'].
    + rewrite (lookup_union_Some_l _ _ _ (VStr "closed"))
        by (unfold closing; apply lookup_insert_eq).
      symmetry. apply lookup_union_Some_l. unfold closing. apply lookup_insert_eq.
    + apply lookup_union_r. unfold closing.
      by rewrite lookup_insert_ne, lookup_singleton_ne.
  - by rewrite !coll_update_one_length.
Qed.

Lemma close_session_twice_witness :
  let w1 := (close_session demo_env "s1" one_session).2 in
  let w2 := (close_session demo_env "s1" w1).2 in
  ∃ s1 s2 : doc,
    coll_find_one {[ "_id" := VStr "s1" ]} (sessions w1) = Some s1
    ∧ coll_find_one {[ "_id" := VStr "s1" ]} (sessions w2) = Some s2
    ∧ s2 !! "status" = Some (VStr "closed")
    ∧ s2 !! "updated_at" = Some (VTime (utcnow demo_env (S (ticks one_session))))
    ∧ (∀ k, k ≠ "updated_at" → s2 !! k = s1 !! k)
    ∧ length (sessions w2) = length (sessions one_session).
Proof.
  apply (close_session_twice demo_env "s1" one_session
           {[ "_id" := VStr "s1"; "created_at" := VTime 0;
              "updated_at" := VTime 1000; "status" := VStr "active" ]}).
  - reflexivity.
  - reflexivity.
  - vm_compute. reflexivity.
Defined.

(** ** What a sequence of calls keeps *)

Lemma world_step_keeps_fields (env : Env) (w w' : World) (session_id : string)
    (s : doc) :
  world_step env w w' →
  coll_find_one {[ "_id" := VStr session_id ]} (sessions w) = Some s →
  ∃ s' : doc,
    coll_find_one {[ "_id" := VStr session_id ]} (sessions w') = Some s'
    ∧ (∀ k, k ≠ "status" → k ≠ "updated_at" → s' !! k = s !! k).
Proof.
  intros Hstep Hfind.
  destruct Hstep as [t c|sid Hnone|sid role content|sid role content|sid];
    cbn [sessions advance].
  - by exists s.
  - exists s. by rewrite coll_find_one_app, Hfind.
  - by exists s.
  - rewrite find_one_update_one, Hfind by done.
    destruct (decide (VStr sid = VStr session_id)); [|by exists s].
    eexists. split; [done|]. intros k _ Hk.
    apply lookup_union_r. by apply lookup_singleton_ne.
  - rewrite find_one_update_one, Hfind by done.
    destruct (decide (VStr sid = VStr session_id)); [|by exists s].
    eexists. split; [done|]. intros k Hk1 Hk2.
    apply lookup_union_r. unfold closing.
    by rewrite lookup_insert_ne, lookup_singleton_ne.
Qed.

(** X11: along every sequence of calls a session keeps its record and
    every field of it other than [status] and [updated_at]: in
    particular [_id] and [created_at] never change once written. *)
Theorem session_fields_kept (env : Env) (cs : list call) (session_id : string)
    (w : World) (s : doc) :
  coll_find_one {[ "_id" := VStr session_id ]} (sessions w) = Some s →
  ∃ s' : doc,
    coll_find_one {[ "_id" := VStr session_id ]} (sessions (exec_all env cs w))
    = Some s'
    ∧ s' !! "_id" = Some (VStr session_id)
    ∧ s' !! "created_at" = s !! "created_at"
    ∧ (∀ k, k ≠ "status" → k ≠ "updated_at" → s' !! k = s !! k).
Proof.
  intros Hfind.
  assert (Hgen : ∃ s' : doc,
    coll_find_one {[ "_id" := VStr session_id ]} (sessions (exec_all env cs w))
    = Some s'
    ∧ (∀ k, k ≠ "status" → k ≠ "updated_at" → s' !! k = s !! k)).
  { induction cs as [|c cs (s1 & Hfind1 & Hkeep1)] using rev_ind.
    - by exists s.
    - rewrite exec_all_snoc.
      destruct (world_step_keeps_fields env _ _ session_id s1
                  (exec_world_step env c (exec_all env cs w)) Hfind1)
        as (s2 & Hfind2 & Hkeep2).
      exists s2. split; [done|]. intros k Hk1 Hk2.
      by rewrite Hkeep2, Hkeep1. }
  destruct Hgen as (s' & Hfind' & Hkeep).
  exists s'. split_and!; [done| |by apply Hkeep|done].
  apply coll_find_one_elem in Hfind' as [_ Hm]. by apply matches_singleton.
Qed.

Lemma session_fields_kept_witness :
  ∃ s' : doc,
    coll_find_one {[ "_id" := VStr "s1" ]}
      (sessions (exec_all demo_env
                   [SaveMessage "s1" "user" "hi"; CloseSession "s1";
                    CreateSession "s1"] one_session))
    = Some s'
    ∧ s' !! "_id" = Some (VStr "s1")
    ∧ s' !! "created_at" = Some (VTime 0).
Proof.
  destruct (session_fields_kept demo_env
              [SaveMessage "s1" "user" "hi"; CloseSession "s1"; CreateSession "s1"]
              "s1" one_session
              {[ "_id" := VStr "s1"; "created_at" := VTime 0;
                 "updated_at" := VTime 1000; "status" := VStr "active" ]})
    as (s' & Hfind & Hid & Hcreated & _).
  - vm_compute. reflexivity.
  - exists s'. split_and!; [exact Hfind|exact Hid|].
    rewrite Hcreated. vm_compute. reflexivity.
Defined.

(** ** Timestamps under a clock that does not run backwards *)

Lemma session_stamped_later (env : Env) (w w' : World) (s : doc) :
  (ticks w ≤ ticks w')%nat →
  session_stamped env w s → session_stamped env w' s.
Proof.
  intros Hle (i & j & Hij & Hc & Hu). exists i, j. split; [lia|done].
Qed.

Lemma world_step_ticks (env : Env) (w w' : World) :
  world_step env w w' → (ticks w ≤ ticks w')%nat.
Proof. destruct 1; cbn [ticks advance]; lia. Qed.

Lemma world_step_stamped (env : Env) (w w' : World) :
  world_step env w w' →
  Forall (session_stamped env w) (sessions w) →
  Forall (session_stamped env w') (sessions w').
Proof.
  intros Hstep Hinv.
  assert (Hlater : Forall (session_stamped env w') (sessions w)).
  { eapply Forall_impl; [exact Hinv|]. intros s.
    apply session_stamped_later. by eapply world_step_ticks. }
  clear Hinv.
  destruct Hstep as [t c|sid Hnone|sid role content|sid role content|sid];
    cbn [sessions advance] in *.
  - done.
  - apply Forall_app. split; [done|]. constructor; [|constructor].
    exists (ticks w), (S (ticks w)). cbn [ticks]. split; [lia|split; reflexivity].
  - done.
  - apply coll_update_one_Forall; [|done].
    intros d (i & j & Hij & Hc & Hu). cbn [ticks] in Hij.
    exists i, (S (ticks w)). cbn [ticks]. split; [lia|split].
    + by rewrite lookup_union_r.
    + apply lookup_union_Some_l, lookup_singleton_eq.
  - apply coll_update_one_Forall; [|done].
    intros d (i & j & Hij & Hc & Hu). cbn [ticks] in Hij.
    exists i, (ticks w). cbn [ticks]. split; [lia|split].
    + by rewrite lookup_union_r.
    + apply lookup_union_Some_l. unfold closing.
      rewrite lookup_insert_ne by done. apply lookup_singleton_eq.
Qed.

(** X12: when the clock never runs backwards, every session record in a
    store built from the empty one by any sequence of calls has
    [created_at] no later than [updated_at]. *)
Theorem created_before_updated (env : Env) (cs : list call) (s : doc) :
  (∀ i j : nat, (i ≤ j)%nat → utcnow env i ≤ utcnow env j) →
  s ∈ sessions (exec_all env cs empty_world) →
  ∃ created updated : time,
    s !! "created_at" = Some (VTime created)
    ∧ s !! "updated_at" = Some (VTime updated)
    ∧ created ≤ updated.
Proof.
  intros Hmono Hin.
  assert (Hinv : Forall (session_stamped env (exec_all env cs empty_world))
                        (sessions (exec_all env cs empty_world))).
  { clear Hin. induction cs as [|c cs IH] using rev_ind; [constructor|].
    rewrite exec_all_snoc.
    eapply world_step_stamped; [apply exec_world_step|done]. }
  rewrite Forall_forall in Hinv.
  destruct (Hinv s Hin) as (i & j & Hij & Hc & Hu).
  exists (utcnow env i), (utcnow env j). split_and!; [done|done|].
  apply Hmono. lia.
Qed.

Lemma demo_clock_millis (n : nat) : utcnow demo_env n = Z.of_nat n * 1000.
Proof.
  unfold utcnow, to_millis. cbn [clock demo_env].
  rewrite Z.div_add_l by lia. change (250 / 1000) with 0. lia.
Qed.

Lemma created_before_updated_witness :
  ∃ created updated : time,
    ({[ "_id" := VStr "s1"; "created_at" := VTime 0;
        "updated_at" := VTime 5000; "status" := VStr "active" ]} : doc)
      !! "created_at" = Some (VTime created)
    ∧ ({[ "_id" := VStr "s1"; "created_at" := VTime 0;
          "updated_at" := VTime 5000; "status" := VStr "active" ]} : doc)
        !! "updated_at" = Some (VTime updated)
    ∧ created ≤ updated.
Proof.
  apply (created_before_updated demo_env
           [CreateSession "s1"; SaveMessage "s1" "user" "hi";
            SaveMessage "s1" "assistant" "hello"]).
  - intros i j Hij. rewrite !demo_clock_millis. lia.
  - apply (bool_decide_unpack _). vm_compute. reflexivity.
Defined.

(** ** The order of the history *)

Lemma stamped_before_field_le (a b : doc) :
  stamped_before a b → field_le "timestamp" a b ∧ ¬ field_le "timestamp" b a.
Proof.
  intros (x & y & Ha & Hb & Hxy). split.
  - apply (field_le_time _ _ _ x y); [done|done|lia].
  - rewrite (field_le_time _ _ _ y x) by done. lia.
Qed.

Lemma sorted_trichotomy (l : list doc) (a b : doc) :
  StronglySorted stamped_before l → a ∈ l → b ∈ l →
  a = b ∨ stamped_before a b ∨ stamped_before b a.
Proof.
  induction 1 as [|x l Hl IH Hx]; intros Ha Hb.
  - by apply elem_of_nil in Ha.
  - rewrite Forall_forall in Hx.
    apply elem_of_cons in Ha as [->|Ha]; apply elem_of_cons in Hb as [->|Hb];
      auto.
Qed.

Lemma StronglySorted_coll_find (q : doc) (l : list doc) :
  StronglySorted stamped_before l → StronglySorted stamped_before (coll_find q l).
Proof.
  induction 1 as [|x l Hl IH Hx]; [constructor|].
  unfold coll_find in *. cbn [List.filter]. destruct (matches q x); [|done].
  constructor; [done|]. by apply (Forall_coll_find _ q).
Qed.

Lemma StronglySorted_weaken (R R' : relation doc) (l : list doc) :
  (∀ a b, R a b → R' a b) → StronglySorted R l → StronglySorted R' l.
Proof.
  intros Himpl. induction 1 as [|x l Hl IH Hx]; constructor; [done|].
  eapply Forall_impl; [exact Hx|]. intros b. apply Himpl.
Qed.

(** Sorting messages that are already in strict timestamp order gives
    them back as they are. *)
Lemma coll_sort_sorted_id (l : list doc) :
  StronglySorted stamped_before l → coll_sort "timestamp" l = l.
Proof.
  intros Hl.
  apply (StronglySorted_unique_strong (field_le "timestamp")).
  - intros x1 x2 H1 H2 H12 H21.
    rewrite (coll_sort_perm "timestamp" l) in H1.
    destruct (sorted_trichotomy l x1 x2 Hl H1 H2) as [?|[Hlt|Hlt]]; [done| |];
      apply stamped_before_field_le in Hlt as [_ Hn]; by destruct Hn.
  - apply coll_sort_sorted.
  - eapply StronglySorted_weaken; [|exact Hl].
    intros a b Hab. by apply stamped_before_field_le in Hab as [? _].
  - apply coll_sort_perm.
Qed.

Lemma world_step_messages_sorted (env : Env) (w w' : World) :
  (∀ i j : nat, (i < j)%nat → utcnow env i < utcnow env j) →
  world_step env w w' →
  Forall (message_stamped env w) (messages w)
  ∧ StronglySorted stamped_before (messages w) →
  Forall (message_stamped env w') (messages w')
  ∧ StronglySorted stamped_before (messages w').
Proof.
  intros Hclock Hstep [Hst Hso].
  assert (Hlater : Forall (message_stamped env w') (messages w)).
  { eapply Forall_impl; [exact Hst|]. intros m (i & Hi & Hm).
    exists i. split; [|done]. apply world_step_ticks in Hstep. lia. }
  assert (Hnew : ∀ sid role content,
    message_stamped env
      (mkWorld (sessions w)
               (messages w ++ [new_message env sid role content w])
               (S (S (ticks w))) (S (S (calls w))))
      (new_message env sid role content w)
    ∧ Forall (λ m, stamped_before m (new_message env sid role content w))
             (messages w)).
  { intros sid role content. split.
    - exists (ticks w). cbn [ticks]. split; [lia|reflexivity].
    - eapply Forall_impl; [exact Hst|]. intros m (i & Hi & Hm).
      exists (utcnow env i), (utcnow env (ticks w)).
      split_and!; [done|reflexivity|by apply Hclock]. }
  destruct Hstep as [t c|sid Hnone|sid role content|sid role content|sid];
    cbn [messages advance] in *; try done.
  - destruct (Hnew sid role content) as [Hn Hb]. split.
    + apply Forall_app. split; [done|]. constructor; [|constructor].
      destruct Hn as (i & Hi & Hm). by exists i.
    + apply StronglySorted_app. split_and!; [|done|repeat constructor].
      intros x1 x2 H1 H2. apply list_elem_of_singleton in H2 as ->.
      rewrite Forall_forall in Hb. by apply Hb.
  - destruct (Hnew sid role content) as [Hn Hb]. split.
    + apply Forall_app. split; [done|]. constructor; [|constructor].
      destruct Hn as (i & Hi & Hm). by exists i.
    + apply StronglySorted_app. split_and!; [|done|repeat constructor].
      intros x1 x2 H1 H2. apply list_elem_of_singleton in H2 as ->.
      rewrite Forall_forall in Hb. by apply Hb.
Qed.

(** X13: when every clock reading falls in a later millisecond than the
    one before, so that no two stored timestamps are equal, the history
    comes back in the order the messages were saved: in a store built
    from the empty one by any sequence of calls, a [get_chat_history]
    with a limit [≥ 0] whose round trip goes through returns the entries
    of the session's messages in insertion order, cut to the first
    [limit] of them when [limit] is not [0]. *)
Theorem history_in_insertion_order (env : Env) (cs : list call)
    (session_id : string) (limit : Z) :
  (∀ i j : nat, (i < j)%nat → utcnow env i < utcnow env j) →
  0 ≤ limit →
  let w := exec_all env cs empty_world in
  fault env (calls w) = false →
  ∃ h : list doc,
    (get_chat_history env session_id limit w).1 = Returns h
    ∧ Forall2 chat_entry (coll_limit limit (session_messages session_id w)) h.
Proof.
  intros Hclock _ w Hf.
  assert (Hinv : Forall (message_stamped env w) (messages w)
                 ∧ StronglySorted stamped_before (messages w)).
  { subst w. clear Hf. induction cs as [|c cs IH] using rev_ind.
    - split; constructor.
    - rewrite exec_all_snoc.
      eapply world_step_messages_sorted; [done|apply exec_world_step|done]. }
  destruct Hinv as [_ Hsorted].
  destruct (get_chat_history_ok env session_id limit w Hf) as (h & Hrun & Hh).
  { apply exec_all_msg_wf. }
  exists h. split; [by rewrite Hrun|].
  unfold selected in Hh. rewrite coll_sort_sorted_id in Hh; [done|].
  by apply StronglySorted_coll_find.
Qed.

Lemma history_in_insertion_order_witness :
  ∃ h : list doc,
    (get_chat_history demo_env "s1" 1
       (exec_all demo_env
          [CreateSession "s1"; SaveMessage "s1" "user" "hi";
           SaveMessage "s2" "user" "elsewhere";
           SaveMessage "s1" "assistant" "hello"] empty_world)).1 = Returns h
    ∧ Forall2 chat_entry
        (coll_limit 1
           (session_messages "s1"
              (exec_all demo_env
                 [CreateSession "s1"; SaveMessage "s1" "user" "hi";
                  SaveMessage "s2" "user" "elsewhere";
                  SaveMessage "s1" "assistant" "hello"] empty_world))) h.
Proof.
  apply (history_in_insertion_order demo_env
           [CreateSession "s1"; SaveMessage "s1" "user" "hi";
            SaveMessage "s2" "user" "elsewhere";
            SaveMessage "s1" "assistant" "hello"] "s1" 1).
  - intros i j Hij. rewrite !demo_clock_millis. lia.
  - lia.
  - reflexivity.
Defined.

(** * Further properties of the singleton *)

Lemma run_all_snoc (cs : list Singleton.gcall) (c : Singleton.gcall)
    (p : Singleton.Process) :
  Singleton.run_all (cs ++ [c]) p = Singleton.run c (Singleton.run_all cs p).
Proof. unfold Singleton.run_all. by rewrite foldl_app. Qed.

Lemma run_singleton_state (c : Singleton.gcall) (p : Singleton.Process) :
  singleton_state p → singleton_state (Singleton.run c p).
Proof.
  intros [Hdb [[Hnone Hheap]|[Hsome Hheap]]];
    destruct c as [[]|]; cbn [Singleton.run];
    unfold Singleton.get_database, Singleton.new_MongoDB, Singleton.close_database;
    rewrite ?Hnone, ?Hsome, ?Hdb; cbn [snd];
    unfold singleton_state; cbn [Singleton._db_instance
      Singleton._database_instance Singleton.heap];
    rewrite ?Hheap, ?Hdb; cbn [length app]; auto.
Qed.

(** X14: over every sequence of [get_database] and [close_database]
    calls the process is in one of two states: nothing created, or
    exactly one [MongoDB] object, held in [_database_instance], with its
    connection open.  So at most one object is ever created, nothing
    closes or replaces it, and a [get_database] call raises exactly when
    nothing has been created yet and the server cannot be reached, in
    which case it leaves the state as it was, so that a later call tries
    again. *)
Theorem singleton_created_once (cs : list Singleton.gcall) (reachable : bool) :
  let p := Singleton.run_all cs Singleton.initial in
  singleton_state p
  ∧ (length (Singleton.heap p) ≤ 1)%nat
  ∧ ((Singleton.get_database reachable p).1 = Raises PyMongoError
     ↔ Singleton._database_instance p = None ∧ reachable = false)
  ∧ ((Singleton.get_database reachable p).1 = Raises PyMongoError →
     (Singleton.get_database reachable p).2 = p)
  ∧ (∀ a, Singleton._database_instance p = Some a →
          (Singleton.get_database reachable p) = (Returns a, p)
          ∧ Singleton.connection_open a p = true).
Proof.
  intros p.
  assert (Hinv : singleton_state p).
  { subst p. induction cs as [|c cs IH] using rev_ind.
    - split; [done|by left].
    - rewrite run_all_snoc. by apply run_singleton_state. }
  split; [exact Hinv|].
  destruct Hinv as [Hdb [[Hnone Hheap]|[Hsome Hheap]]].
  - split_and!.
    + rewrite Hheap. cbn [length]. lia.
    + unfold Singleton.get_database, Singleton.new_MongoDB. rewrite Hnone.
      destruct reachable; cbn [fst]; split; try done.
      * by intros [_ ?].
    + unfold Singleton.get_database, Singleton.new_MongoDB. rewrite Hnone.
      by destruct reachable.
    + intros a Ha. congruence.
  - split_and!.
    + rewrite Hheap. cbn [length]. lia.
    + unfold Singleton.get_database. rewrite Hsome. cbn [fst].
      split; [done|]. intros [? _]. congruence.
    + unfold Singleton.get_database. by rewrite Hsome.
    + intros a Ha. rewrite Hsome in Ha. injection Ha as <-.
      unfold Singleton.get_database, Singleton.connection_open.
      by rewrite Hsome, Hheap.
Qed.

(** X15: [close_connection] can be repeated, and the singleton is not
    reopened after it: once the instance that [_database_instance] holds
    has been closed, closing it again changes nothing, its connection is
    not open, and [get_database] still returns that same instance
    without creating another. *)
Theorem closed_singleton_is_kept (p : Singleton.Process) (a : nat)
    (reachable : bool) :
  Singleton._database_instance p = Some a →
  let p1 := Singleton.close_connection a p in
  Singleton.close_connection a p1 = p1
  ∧ Singleton.connection_open a p1 = false
  ∧ Singleton.get_database reachable p1 = (Returns a, p1)
  ∧ length (Singleton.heap p1) = length (Singleton.heap p).
Proof.
  intros Hsome p1. subst p1.
  destruct (Singleton.heap p !! a) as [[[c|]]|] eqn:Hlook.
  - assert (Ha : (a < length (Singleton.heap p))%nat).
    { by eapply lookup_lt_Some. }
    assert (Hp1 : Singleton.close_connection a p
      = Singleton.mkProcess
          (<[a := Singleton.mkMongoDB (Some (Singleton.mkClient false))]>
             (Singleton.heap p))
          (Singleton._database_instance p) (Singleton._db_instance p)).
    { unfold Singleton.close_connection. by rewrite Hlook. }
    rewrite Hp1. split_and!.
    + unfold Singleton.close_connection. cbn [Singleton.heap].
      rewrite list_lookup_insert_eq by done.
      cbn [Singleton._database_instance Singleton._db_instance].
      by rewrite list_insert_insert_eq.
    + unfold Singleton.connection_open. cbn [Singleton.heap].
      by rewrite list_lookup_insert_eq.
    + unfold Singleton.get_database. cbn [Singleton._database_instance].
      by rewrite Hsome.
    + cbn [Singleton.heap]. apply length_insert.
  - assert (Hp1 : Singleton.close_connection a p = p).
    { unfold Singleton.close_connection. by rewrite Hlook. }
    rewrite !Hp1. split_and!; [done| | |done].
    + unfold Singleton.connection_open. by rewrite Hlook.
    + unfold Singleton.get_database. by rewrite Hsome.
  - assert (Hp1 : Singleton.close_connection a p = p).
    { unfold Singleton.close_connection. by rewrite Hlook. }
    rewrite !Hp1. split_and!; [done| | |done].
    + unfold Singleton.connection_open. by rewrite Hlook.
    + unfold Singleton.get_database. by rewrite Hsome.
Qed.

Lemma closed_singleton_is_kept_witness :
  let p := (Singleton.get_database true Singleton.initial).2 in
  let p1 := Singleton.close_connection 0 p in
  Singleton.connection_open 0 p = true
  ∧ Singleton.close_connection 0 p1 = p1
  ∧ Singleton.connection_open 0 p1 = false
  ∧ Singleton.get_database false p1 = (Returns 0%nat, p1)
  ∧ length (Singleton.heap p1) = length (Singleton.heap p).
Proof.
  split; [reflexivity|].
  apply (closed_singleton_is_kept
           (Singleton.get_database true Singleton.initial).2 0 false).
  reflexivity.
Defined.

Lemma singleton_created_once_witness :
  let p := Singleton.run_all
             [Singleton.GetDatabase false; Singleton.GetDatabase true;
              Singleton.CloseDatabase; Singleton.GetDatabase false]
             Singleton.initial in
  (Singleton.get_database false Singleton.initial).1 = Raises PyMongoError
  ∧ Singleton.get_database false p = (Returns 0%nat, p)
  ∧ Singleton.connection_open 0 p = true
  ∧ (length (Singleton.heap p) ≤ 1)%nat.
Proof.
  destruct (singleton_created_once [] false) as (_ & _ & Hraise & _).
  destruct (singleton_created_once
              [Singleton.GetDatabase false; Singleton.GetDatabase true;
               Singleton.CloseDatabase; Singleton.GetDatabase false] false)
    as (_ & Hlen & _ & _ & Hsame).
  destruct (Hsame 0%nat) as [Hget Hopen]; [reflexivity|].
  split_and!; [|exact Hget|exact Hopen|exact Hlen].
  apply Hraise. split; reflexivity.
Defined.
